(** * CircularBuffer.hpp: a shallow embedding of [hl::CircularBuffer<T>]

    The class owns a raw byte block of [_rawBufferSize = sizeof(T) * bufferSize]
    bytes and two byte offsets into it.  Every public member function takes
    the same mutex for its whole body, so each call is one critical section;
    the development models the sequential semantics of those critical
    sections (the lock itself is not represented).

    - [std::size_t] is a 64-bit unsigned integer: a [Z] with the wrap-around
      written out ([wrap]).
    - [new std::uint8_t[n]] asks the allocator ([Heap]) for [n] bytes and
      throws [std::bad_alloc] when it cannot have them ([new_bytes] is then
      [None]).
    - [std::uint8_t *_buffer] is a [list byte]; [std::memcpy] into and out of
      it is checked against the block's bounds, a copy that leaves the block
      has undefined behaviour ([Undefined]).
    - The remainder by zero in [nextIndex] has undefined behaviour (the
      processor traps): [nextIndex] is then [None] and the call that
      evaluated it ends in [Undefined].
    - [T] is any type with an object representation of [sizeof] bytes
      (class [Packet]).
    - [throw] ends the call with [Throws], carrying the state at the point of
      the throw.  (That the two error classes declare their constructors
      private, which matters to the compiler only, is not represented.)
    - [assert] is taken as compiled in (no [NDEBUG]).
    - The [for]/[while] loops take fuel: one unit per execution of the body. *)

From Stdlib Require Import ZArith List Bool Lia.
From Stdlib.Strings Require Import Byte.
Import ListNotations.
Local Open Scope Z_scope.

(** ** Machine integers *)

Definition size_bits : Z := 64.
Definition size_modulus : Z := 2 ^ size_bits.

(** Reduction of an arithmetic result to [std::size_t]. *)
Definition wrap (z : Z) : Z := z mod size_modulus.

(** Conversion [std::size_t -> ssize_t] (two's complement). *)
Definition to_ssize (z : Z) : Z :=
  if z <? 2 ^ (size_bits - 1) then z else z - size_modulus.

(** ** Element types *)

(** What the buffer needs from [T]: [sizeof(T)], and the object representation
    that [std::memcpy] reads and writes. *)
Class Packet (T : Type) : Type := {
  sizeof : Z;
  to_bytes : T -> list byte;
  of_bytes : list byte -> T;
  sizeof_range : 0 < sizeof < size_modulus;
  to_bytes_length : forall x, Z.of_nat (length (to_bytes x)) = sizeof;
  of_to_bytes : forall x, of_bytes (to_bytes x) = x
}.

(** ** Outcomes of a call *)

Inductive Error : Type :=
| ErrorNothingToRead
| ErrorBufferBusy.

Inductive outcome (S A : Type) : Type :=
| Returns (a : A) (s : S)
| Throws (e : Error) (s : S)
| Undefined
| OutOfFuel.

Arguments Returns {S A} a s.
Arguments Throws {S A} e s.
Arguments Undefined {S A}.
Arguments OutOfFuel {S A}.

(** The call came back to its caller, normally or by an exception. *)
Definition terminated {S A : Type} (o : outcome S A) : bool :=
  match o with
  | Returns _ _ | Throws _ _ => true
  | Undefined | OutOfFuel => false
  end.

(** The state the caller sees once the call is over. *)
Definition state_after {S A : Type} (o : outcome S A) : option S :=
  match o with
  | Returns _ s | Throws _ s => Some s
  | Undefined | OutOfFuel => None
  end.

(** ** Raw memory *)

(** [std::memcpy(&value, block + off, n)] *)
Definition memcpy_load (block : list byte) (off n : Z) : option (list byte) :=
  if (0 <=? off) && (0 <=? n) && (off + n <=? Z.of_nat (length block))
  then Some (firstn (Z.to_nat n) (skipn (Z.to_nat off) block))
  else None.

(** [std::memcpy(block + off, src, n)] *)
Definition memcpy_store (block : list byte) (off : Z) (src : list byte) (n : Z)
  : option (list byte) :=
  if (0 <=? off) && (0 <=? n) && (off + n <=? Z.of_nat (length block))
     && (n <=? Z.of_nat (length src))
  then Some (firstn (Z.to_nat off) block
             ++ firstn (Z.to_nat n) src
             ++ skipn (Z.to_nat (off + n)) block)
  else None.

(** The allocator as the constructor meets it: how many bytes it can still
    hand out, and what the bytes of a fresh block happen to hold. *)
Record Heap : Type := mkHeap {
  heap_free : Z;
  heap_junk : nat -> byte
}.

(** [new std::uint8_t[n]]: a block of [n] bytes whose contents are whatever
    the allocator left there, or [None] for [std::bad_alloc]. *)
Definition new_bytes (n : Z) (h : Heap) : option (list byte) :=
  if n <=? heap_free h
  then Some (map (heap_junk h) (seq 0 (Z.to_nat n)))
  else None.

(** ** The class *)

Record CircularBuffer : Type := mkCircularBuffer {
  _packetSize : Z;
  _bufferSize : Z;
  _rawBufferSize : Z;
  _buffer : list byte;
  _readPtr : Z;
  _writePtr : Z
}.

Definition set_readPtr (v : Z) (b : CircularBuffer) : CircularBuffer :=
  mkCircularBuffer (_packetSize b) (_bufferSize b) (_rawBufferSize b)
                   (_buffer b) v (_writePtr b).

Definition set_writePtr (v : Z) (b : CircularBuffer) : CircularBuffer :=
  mkCircularBuffer (_packetSize b) (_bufferSize b) (_rawBufferSize b)
                   (_buffer b) (_readPtr b) v.

Definition set_buffer (v : list byte) (b : CircularBuffer) : CircularBuffer :=
  mkCircularBuffer (_packetSize b) (_bufferSize b) (_rawBufferSize b)
                   v (_readPtr b) (_writePtr b).

(** [nextIndex]: [(index + _packetSize) % _rawBufferSize].  With
    [_rawBufferSize = 0] the remainder is a division by zero: [None]. *)
Definition nextIndex (b : CircularBuffer) (index : Z) : option Z :=
  if _rawBufferSize b =? 0
  then None
  else Some (wrap (index + _packetSize b) mod _rawBufferSize b).

Definition canReadNotThreadSafe (b : CircularBuffer) : bool :=
  negb (_readPtr b =? _writePtr b).

Definition canWriteNotThreadSafe (b : CircularBuffer) : option bool :=
  match nextIndex b (_writePtr b) with
  | None => None
  | Some next => Some (negb (next =? _readPtr b))
  end.

Definition canRead (b : CircularBuffer) : outcome CircularBuffer bool :=
  Returns (canReadNotThreadSafe b) b.

Definition canWrite (b : CircularBuffer) : outcome CircularBuffer bool :=
  match canWriteNotThreadSafe b with
  | None => Undefined
  | Some can => Returns can b
  end.

(** Result of running the constructor. *)
Inductive construction : Type :=
| Constructed (b : CircularBuffer)
| AssertionFailed
| BadAlloc.

Definition default_bufferSize : Z := 20.

Section Operations.

Context {T : Type} `{PT : Packet T}.

(** The constructor.  The member initialisers run in declaration order, the
    allocation included, before the body's [assert(bufferSize > 1)]. *)
Definition CircularBuffer_new (bufferSize : Z) (h : Heap) : construction :=
  let packetSize := sizeof in
  let rawBufferSize := wrap (packetSize * bufferSize) in
  match new_bytes rawBufferSize h with
  | None => BadAlloc
  | Some buffer =>
      if 1 <? bufferSize
      then Constructed (mkCircularBuffer packetSize bufferSize rawBufferSize
                                         buffer 0 0)
      else AssertionFailed
  end.

(** The loop of [read]:
    [for (; _readPtr != _writePtr; _readPtr = nextIndex(_readPtr))]. *)
Fixpoint read_loop (fuel : nat) (values : list T) (b : CircularBuffer)
  : outcome CircularBuffer (list T) :=
  if negb (_readPtr b =? _writePtr b) then
    match fuel with
    | O => OutOfFuel
    | S fuel' =>
        match memcpy_load (_buffer b) (_readPtr b) (_packetSize b) with
        | None => Undefined
        | Some bytes =>
            let value := of_bytes bytes in
            match nextIndex b (_readPtr b) with
            | None => Undefined
            | Some next =>
                read_loop fuel' (values ++ [value]) (set_readPtr next b)
            end
        end
    end
  else Returns values b.

Definition read (fuel : nat) (b : CircularBuffer)
  : outcome CircularBuffer (list T) :=
  let values := [] in
  if Bool.eqb (canReadNotThreadSafe b) false
  then Throws ErrorNothingToRead b
  else read_loop fuel values b.

(** The loop of [write]:
    [while (_readPtr != nextIndex(_writePtr) && packetIndex < packets.size())].
    The body copies [packets[packetIndex]] and advances [_writePtr]; it does
    not touch [packetIndex]. *)
Fixpoint write_loop (fuel : nat) (packets : list T) (packetIndex : Z)
         (b : CircularBuffer) : outcome CircularBuffer Z :=
  match nextIndex b (_writePtr b) with
  | None => Undefined
  | Some next =>
      if negb (_readPtr b =? next)
         && (packetIndex <? Z.of_nat (length packets)) then
        match fuel with
        | O => OutOfFuel
        | S fuel' =>
            match nth_error packets (Z.to_nat packetIndex) with
            | None => Undefined
            | Some p =>
                match memcpy_store (_buffer b) (_writePtr b) (to_bytes p)
                                   (_packetSize b) with
                | None => Undefined
                | Some buffer' =>
                    let b1 := set_buffer buffer' b in
                    match nextIndex b1 (_writePtr b1) with
                    | None => Undefined
                    | Some next' =>
                        write_loop fuel' packets packetIndex
                                   (set_writePtr next' b1)
                    end
                end
            end
        end
      else Returns packetIndex b
  end.

(** [packets.erase(packets.begin(), packets.begin() + n)] *)
Definition erase_prefix (packets : list T) (n : Z) : list T :=
  skipn (Z.to_nat n) packets.

(** [write].  The caller's vector is passed by reference, so it is part of the
    state the call works on. *)
Definition write (fuel : nat) (removeWrittenPackets : bool)
           (st : CircularBuffer * list T)
  : outcome (CircularBuffer * list T) Z :=
  let '(b, packets) := st in
  let packetIndex := 0 in
  match packets with
  | [] => Returns 0 (b, packets)
  | _ :: _ =>
      match canWriteNotThreadSafe b with
      | None => Undefined
      | Some can =>
          if Bool.eqb can false
          then Throws ErrorBufferBusy (b, packets)
          else
            match write_loop fuel packets packetIndex b with
            | Returns packetIndex' b' =>
                Returns (to_ssize packetIndex')
                        (b', if removeWrittenPackets
                             then erase_prefix packets packetIndex'
                             else packets)
            | Throws e b' => Throws e (b', packets)
            | Undefined => Undefined
            | OutOfFuel => OutOfFuel
            end
      end
  end.

(** [n] applications of [nextIndex] in a row. *)
Fixpoint iter_nextIndex (b : CircularBuffer) (n : nat) (index : Z)
  : option Z :=
  match n with
  | O => Some index
  | S n' =>
      match iter_nextIndex b n' index with
      | None => None
      | Some i => nextIndex b i
      end
  end.

End Operations.

(** ** A concrete element type: [std::uint16_t], little endian *)

Definition uint16 : Type := (byte * byte)%type.

Definition byte_of_Z (z : Z) : byte :=
  match Byte.of_N (Z.to_N (z mod 256)) with
  | Some x => x
  | None => x00
  end.

Definition u16 (z : Z) : uint16 := (byte_of_Z z, byte_of_Z (z / 256)).

Definition uint16_to_bytes (x : uint16) : list byte := [fst x; snd x].

Definition uint16_of_bytes (l : list byte) : uint16 :=
  (nth 0 l x00, nth 1 l x00).

#[export, refine] Instance Packet_uint16 : Packet uint16 := {
  sizeof := 2;
  to_bytes := uint16_to_bytes;
  of_bytes := uint16_of_bytes
}.
Proof.
  - unfold size_modulus, size_bits. lia.
  - intros x. reflexivity.
  - intros [lo hi]. reflexivity.
Defined.

(** An allocator with room to spare whose blocks happen to hold zeros, and
    one with three bytes left. *)
Definition ample_heap : Heap := mkHeap (2 ^ 32) (fun _ => x00).

Definition tight_heap : Heap := mkHeap 3 (fun _ => x00).

(** New buffers of 4 and of 5 slots. *)
Definition fresh4 : CircularBuffer :=
  mkCircularBuffer 2 4 8 (repeat x00 8) 0 0.

Definition fresh5 : CircularBuffer :=
  mkCircularBuffer 2 5 10 (repeat x00 10) 0 0.

(** [fresh4] after [write] was called with [[7; 8; 9]]: the buffer is full. *)
Definition full4 : CircularBuffer :=
  mkCircularBuffer 2 4 8 (flat_map to_bytes (map u16 [7; 7; 7]) ++ [x00; x00])
                   0 6.

(** [fresh5] after a [write], a [read] and a second [write]: the write
    cursor has wrapped around the end of the block. *)
Definition wrapped5 : CircularBuffer :=
  mkCircularBuffer 2 5 10 (flat_map to_bytes (map u16 [4; 4; 4; 1; 4])) 8 6.

(** A buffer of 5 slots in which 20 and 30 are waiting. *)
Definition partial5 : CircularBuffer :=
  mkCircularBuffer 2 5 10 (flat_map to_bytes (map u16 [20; 30; 0; 0; 0])) 0 4.

(** What the constructor builds for [bufferSize = 2^63]: the product
    [2 * 2^63] wraps to 0 and the block has no bytes. *)
Definition zero_block : CircularBuffer :=
  mkCircularBuffer 2 (2 ^ 63) 0 [] 0 0.

(** ** The class invariant and the abstract view of a buffer *)

Section Invariant.

Context {T : Type} `{PT : Packet T}.

(** The data model: sizes fixed by the constructor, a block of exactly
    [_rawBufferSize] bytes, both cursors on a slot boundary inside the
    block. *)
Record wf (b : CircularBuffer) : Prop := mk_wf {
  wf_packetSize : _packetSize b = sizeof;
  wf_bufferSize : 1 < _bufferSize b;
  wf_rawBufferSize : _rawBufferSize b = _packetSize b * _bufferSize b;
  wf_fits : _rawBufferSize b < size_modulus;
  wf_buffer : Z.of_nat (length (_buffer b)) = _rawBufferSize b;
  wf_readPtr_aligned : (_packetSize b | _readPtr b);
  wf_readPtr_range : 0 <= _readPtr b < _rawBufferSize b;
  wf_writePtr_aligned : (_packetSize b | _writePtr b);
  wf_writePtr_range : 0 <= _writePtr b < _rawBufferSize b
}.

(** Slot numbers of the two cursors. *)
Definition rslot (b : CircularBuffer) : Z := _readPtr b / _packetSize b.
Definition wslot (b : CircularBuffer) : Z := _writePtr b / _packetSize b.

(** Number of elements waiting between the read cursor and the write
    cursor, and number of elements that can still be written. *)
Definition resident (b : CircularBuffer) : Z :=
  (wslot b - rslot b) mod _bufferSize b.

Definition free (b : CircularBuffer) : Z := _bufferSize b - 1 - resident b.

(** The element stored in slot [i] of the block. *)
Definition slot (b : CircularBuffer) (i : Z) : T :=
  of_bytes (firstn (Z.to_nat (_packetSize b))
                   (skipn (Z.to_nat (i * _packetSize b)) (_buffer b))).

(** The waiting elements, oldest first. *)
Definition queued (b : CircularBuffer) : list T :=
  map (fun k => slot b ((rslot b + Z.of_nat k) mod _bufferSize b))
      (seq 0 (Z.to_nat (resident b))).

(** The fields the constructor fixes. *)
Definition same_geometry (b b' : CircularBuffer) : Prop :=
  _packetSize b' = _packetSize b /\ _bufferSize b' = _bufferSize b /\
  _rawBufferSize b' = _rawBufferSize b.

(** The spec's [advance(index) = (index + elementSize) mod rawCapacity],
    written from the spec's words to be compared with [nextIndex]. *)
Definition advance (b : CircularBuffer) (index : Z) : Z :=
  (index + _packetSize b) mod _rawBufferSize b.

(** One execution of the increment of [read]'s loop on a well-formed
    buffer, [_readPtr = nextIndex(_readPtr)]. *)
Definition advance_read (b : CircularBuffer) : CircularBuffer :=
  set_readPtr (advance b (_readPtr b)) b.

(** The block after [std::memcpy(_buffer + _writePtr, &p, _packetSize)]. *)
Definition store_at (b : CircularBuffer) (p : T) : list byte :=
  firstn (Z.to_nat (_writePtr b)) (_buffer b)
  ++ firstn (Z.to_nat (_packetSize b)) (to_bytes p)
  ++ skipn (Z.to_nat (_writePtr b + _packetSize b)) (_buffer b).

(** One execution of the body of [write]'s loop on a well-formed buffer. *)
Definition advance_write (p : T) (b : CircularBuffer) : CircularBuffer :=
  set_writePtr (advance b (_writePtr b)) (set_buffer (store_at b p) b).

(** [n] executions of the body of [write]'s loop, all copying [p]. *)
Definition fill (p : T) (n : nat) (b : CircularBuffer) : CircularBuffer :=
  Nat.iter n (advance_write p) b.

(** One public call on the buffer, seen from its state. *)
Inductive step : CircularBuffer -> CircularBuffer -> Prop :=
| step_read (fuel : nat) (b b' : CircularBuffer) :
    state_after (read fuel b) = Some b' -> step b b'
| step_write (fuel : nat) (rm : bool) (packets packets' : list T)
             (b b' : CircularBuffer) :
    state_after (write fuel rm (b, packets)) = Some (b', packets') ->
    step b b'
| step_canRead (b b' : CircularBuffer) :
    state_after (canRead b) = Some b' -> step b b'
| step_canWrite (b b' : CircularBuffer) :
    state_after (canWrite b) = Some b' -> step b b'.

(** The states a buffer constructed with [bufferSize] slots goes through. *)
Inductive reachable (bufferSize : Z) : CircularBuffer -> Prop :=
| reach_new (h : Heap) (b : CircularBuffer) :
    CircularBuffer_new bufferSize h = Constructed b ->
    reachable bufferSize b
| reach_step (b b' : CircularBuffer) :
    reachable bufferSize b -> step b b' -> reachable bufferSize b'.

End Invariant.

(** ** Cursor arithmetic *)

Lemma wrap_small (z : Z) : 0 <= z < size_modulus -> wrap z = z.
Proof. intros H. unfold wrap. now apply Z.mod_small. Qed.

Lemma aligned_slot (sz c p : Z) :
  0 < sz -> (sz | p) -> 0 <= p < sz * c ->
  p = p / sz * sz /\ 0 <= p / sz < c.
Proof.
  intros Hsz [k Hk] Hp. subst p.
  rewrite Z.div_mul by lia. split; [reflexivity | nia].
Qed.

Lemma next_slot (sz c i : Z) :
  0 < sz -> 1 < c -> sz * c < size_modulus -> 0 <= i < c ->
  wrap (i * sz + sz) mod (sz * c) = (i + 1) mod c * sz.
Proof.
  intros Hsz Hc Hfit Hi.
  rewrite wrap_small by nia.
  replace (i * sz + sz) with ((i + 1) * sz) by ring.
  rewrite (Z.mul_comm sz c).
  apply Z.mul_mod_distr_r; lia.
Qed.

Lemma succ_mod_range (c i : Z) : 1 < c -> 0 <= (i + 1) mod c < c.
Proof. intros Hc. apply Z.mod_pos_bound. lia. Qed.

Lemma succ_mod_cases (c i : Z) :
  1 < c -> 0 <= i < c ->
  (i + 1 < c /\ (i + 1) mod c = i + 1) \/ (i + 1 = c /\ (i + 1) mod c = 0).
Proof.
  intros Hc Hi. destruct (Z.eq_dec (i + 1) c) as [E | E].
  - right. split; [exact E |]. rewrite E. apply Z.mod_same. lia.
  - left. split; [lia |]. apply Z.mod_small. lia.
Qed.

(** Distance between two slots, going forward cyclically. *)
Lemma dist_mod_cases (c i j : Z) :
  0 <= i < c -> 0 <= j < c ->
  (i <= j /\ (j - i) mod c = j - i) \/ (j < i /\ (j - i) mod c = j - i + c).
Proof.
  intros Hi Hj. destruct (Z_le_gt_dec i j) as [L | G].
  - left. split; [exact L |]. apply Z.mod_small. lia.
  - right. split; [lia |].
    rewrite <- (Z.mod_add (j - i) 1 c) by lia.
    rewrite Z.mul_1_l. apply Z.mod_small. lia.
Qed.

(** [nextIndex] gives a value exactly when the block is not empty. *)
Lemma nextIndex_defined (b : CircularBuffer) (index : Z) :
  _rawBufferSize b <> 0 ->
  nextIndex b index
  = Some (wrap (index + _packetSize b) mod _rawBufferSize b).
Proof.
  intros H. unfold nextIndex.
  destruct (Z.eqb_spec (_rawBufferSize b) 0); [contradiction | reflexivity].
Qed.

Lemma nextIndex_trap (b : CircularBuffer) (index : Z) :
  _rawBufferSize b = 0 -> nextIndex b index = None.
Proof. intros H. unfold nextIndex. now rewrite H. Qed.

(** ** The invariant in terms of slots *)

Section Slots.

Context {T : Type} `{PT : Packet T}.

Lemma wf_slots (b : CircularBuffer) :
  wf b ->
  0 < _packetSize b /\ 1 < _bufferSize b /\
  _packetSize b * _bufferSize b < size_modulus /\
  _rawBufferSize b = _packetSize b * _bufferSize b /\
  (_readPtr b = rslot b * _packetSize b /\ 0 <= rslot b < _bufferSize b) /\
  (_writePtr b = wslot b * _packetSize b /\ 0 <= wslot b < _bufferSize b).
Proof.
  intros [Hps Hbs Hraw Hfit Hlen Hra Hrr Hwa Hwr].
  assert (Hsz : 0 < _packetSize b) by (rewrite Hps; apply sizeof_range).
  rewrite Hraw in *.
  repeat split; try assumption;
    try (apply (aligned_slot _ (_bufferSize b)); assumption).
Qed.

Lemma wf_block_not_empty (b : CircularBuffer) :
  wf b -> _rawBufferSize b <> 0.
Proof.
  intros Hwf. destruct (wf_slots b Hwf) as (Hsz & Hc & _ & Hraw & _).
  rewrite Hraw. nia.
Qed.

Lemma nextIndex_slot (b : CircularBuffer) (i : Z) :
  wf b -> 0 <= i < _bufferSize b ->
  nextIndex b (i * _packetSize b)
  = Some ((i + 1) mod _bufferSize b * _packetSize b).
Proof.
  intros Hwf Hi. destruct (wf_slots b Hwf) as (Hsz & Hc & Hfit & Hraw & _).
  rewrite (nextIndex_defined b _ (wf_block_not_empty b Hwf)).
  rewrite Hraw. f_equal. now apply next_slot.
Qed.

(** [nextIndex] is the spec's [advance] on every cursor of a well-formed
    buffer: the block is not empty and the 64-bit addition cannot wrap. *)
Lemma nextIndex_advance (b : CircularBuffer) (index : Z) :
  wf b -> (_packetSize b | index) -> 0 <= index < _rawBufferSize b ->
  nextIndex b index = Some (advance b index).
Proof.
  intros Hwf Ha Hi. destruct (wf_slots b Hwf) as (Hsz & Hc & Hfit & Hraw & _).
  rewrite (nextIndex_defined b _ (wf_block_not_empty b Hwf)).
  rewrite Hraw in Hi.
  destruct (aligned_slot _ _ _ Hsz Ha Hi) as [E Hs].
  unfold advance. rewrite wrap_small; [reflexivity |].
  rewrite E. nia.
Qed.

Lemma advance_slot (b : CircularBuffer) (i : Z) :
  wf b -> 0 <= i < _bufferSize b ->
  advance b (i * _packetSize b) = (i + 1) mod _bufferSize b * _packetSize b.
Proof.
  intros Hwf Hi. destruct (wf_slots b Hwf) as (Hsz & Hc & Hfit & Hraw & _).
  pose proof (nextIndex_slot b i Hwf Hi) as H1.
  rewrite (nextIndex_advance b _ Hwf) in H1.
  - now injection H1.
  - apply Z.divide_factor_r.
  - rewrite Hraw. nia.
Qed.

Lemma nextIndex_readPtr (b : CircularBuffer) :
  wf b ->
  nextIndex b (_readPtr b) = Some (advance b (_readPtr b)) /\
  advance b (_readPtr b) = (rslot b + 1) mod _bufferSize b * _packetSize b.
Proof.
  intros Hwf.
  destruct (wf_slots b Hwf) as (_ & _ & _ & _ & (Hr & Hri) & _).
  split.
  - apply (nextIndex_advance b _ Hwf);
      [apply (wf_readPtr_aligned b Hwf) | apply (wf_readPtr_range b Hwf)].
  - rewrite Hr at 1. now apply advance_slot.
Qed.

Lemma nextIndex_writePtr (b : CircularBuffer) :
  wf b ->
  nextIndex b (_writePtr b) = Some (advance b (_writePtr b)) /\
  advance b (_writePtr b) = (wslot b + 1) mod _bufferSize b * _packetSize b.
Proof.
  intros Hwf.
  destruct (wf_slots b Hwf) as (_ & _ & _ & _ & _ & (Hw & Hwi)).
  split.
  - apply (nextIndex_advance b _ Hwf);
      [apply (wf_writePtr_aligned b Hwf) | apply (wf_writePtr_range b Hwf)].
  - rewrite Hw at 1. now apply advance_slot.
Qed.

Lemma slot_of_mul (sz i : Z) : 0 < sz -> i * sz / sz = i.
Proof. intros. apply Z.div_mul. lia. Qed.

Lemma empty_iff_slots (b : CircularBuffer) :
  wf b -> (_readPtr b = _writePtr b <-> rslot b = wslot b).
Proof.
  intros Hwf.
  destruct (wf_slots b Hwf) as (Hsz & _ & _ & _ & (Hr & _) & (Hw & _)).
  split; intros E.
  - unfold rslot, wslot. now rewrite E.
  - rewrite Hr, Hw, E. reflexivity.
Qed.

Lemma full_iff_slots (b : CircularBuffer) :
  wf b ->
  (advance b (_writePtr b) = _readPtr b
   <-> (wslot b + 1) mod _bufferSize b = rslot b).
Proof.
  intros Hwf. rewrite (proj2 (nextIndex_writePtr b Hwf)).
  destruct (wf_slots b Hwf) as (Hsz & _ & _ & _ & (Hr & _) & _).
  split; intros E.
  - rewrite Hr in E. apply Z.mul_cancel_r in E; [exact E | lia].
  - rewrite E. symmetry. exact Hr.
Qed.

Lemma resident_range (b : CircularBuffer) :
  wf b -> 0 <= resident b <= _bufferSize b - 1.
Proof.
  intros Hwf. destruct (wf_slots b Hwf) as (_ & Hc & _).
  unfold resident.
  pose proof (Z.mod_pos_bound (wslot b - rslot b) (_bufferSize b)). lia.
Qed.

Lemma free_range (b : CircularBuffer) :
  wf b -> 0 <= free b <= _bufferSize b - 1.
Proof. intros Hwf. pose proof (resident_range b Hwf). unfold free. lia. Qed.

Lemma resident_zero_iff (b : CircularBuffer) :
  wf b -> (resident b = 0 <-> _readPtr b = _writePtr b).
Proof.
  intros Hwf. rewrite (empty_iff_slots b Hwf).
  destruct (wf_slots b Hwf) as (_ & Hc & _ & _ & (_ & Hri) & (_ & Hwi)).
  unfold resident.
  destruct (dist_mod_cases _ _ _ Hri Hwi) as [[L E] | [L E]]; rewrite E; lia.
Qed.

Lemma free_zero_iff (b : CircularBuffer) :
  wf b -> (free b = 0 <-> advance b (_writePtr b) = _readPtr b).
Proof.
  intros Hwf. rewrite (full_iff_slots b Hwf).
  destruct (wf_slots b Hwf) as (_ & Hc & _ & _ & (_ & Hri) & (_ & Hwi)).
  unfold free, resident.
  destruct (dist_mod_cases _ _ _ Hri Hwi) as [[L E] | [L E]]; rewrite E;
    destruct (succ_mod_cases _ _ Hc Hwi) as [[L' E'] | [L' E']]; rewrite E';
    lia.
Qed.

(** The full predicate as the code computes it. *)
Lemma full_iff_nextIndex (b : CircularBuffer) :
  wf b -> (nextIndex b (_writePtr b) = Some (_readPtr b) <-> free b = 0).
Proof.
  intros Hwf. rewrite (free_zero_iff b Hwf).
  rewrite (proj1 (nextIndex_writePtr b Hwf)).
  split; intros H; [now injection H | now rewrite H].
Qed.

End Slots.

(** ** The loop of [read] *)

Section ReadLoop.

Context {T : Type} `{PT : Packet T}.

Lemma rslot_advance_read (b : CircularBuffer) :
  wf b -> rslot (advance_read b) = (rslot b + 1) mod _bufferSize b.
Proof.
  intros Hwf. destruct (wf_slots b Hwf) as (Hsz & _).
  unfold rslot at 1, advance_read. simpl.
  rewrite (proj2 (nextIndex_readPtr b Hwf)). now apply slot_of_mul.
Qed.

Lemma wf_advance_read (b : CircularBuffer) : wf b -> wf (advance_read b).
Proof.
  intros Hwf. pose proof (proj2 (nextIndex_readPtr b Hwf)) as Hn.
  destruct (wf_slots b Hwf) as (Hsz & Hc & _ & Hraw & _).
  pose proof (succ_mod_range (_bufferSize b) (rslot b) Hc) as Hm.
  destruct Hwf as [Hps Hbs _ Hfit Hlen Hra Hrr Hwa Hwr].
  constructor; simpl; try assumption.
  - rewrite Hn. apply Z.divide_factor_r.
  - rewrite Hn, Hraw. nia.
Qed.

Lemma resident_advance_read (b : CircularBuffer) :
  wf b -> _readPtr b <> _writePtr b ->
  resident (advance_read b) = resident b - 1 /\ 1 <= resident b.
Proof.
  intros Hwf Hne.
  pose proof (rslot_advance_read b Hwf) as Hr'.
  rewrite (empty_iff_slots b Hwf) in Hne.
  destruct (wf_slots b Hwf) as (_ & Hc & _ & _ & (_ & Hri) & (_ & Hwi)).
  unfold resident. rewrite Hr'.
  change (wslot (advance_read b)) with (wslot b).
  change (_bufferSize (advance_read b)) with (_bufferSize b).
  pose proof (succ_mod_range (_bufferSize b) (rslot b) Hc) as Hm.
  destruct (dist_mod_cases _ _ _ Hm Hwi) as [[L E] | [L E]]; rewrite E;
    destruct (dist_mod_cases _ _ _ Hri Hwi) as [[L' E'] | [L' E']]; rewrite E';
    destruct (succ_mod_cases _ _ Hc Hri) as [[L2 E2] | [L2 E2]];
    rewrite E2 in *; lia.
Qed.

Lemma slot_advance_read (b : CircularBuffer) (i : Z) :
  slot (advance_read b) i = slot b i.
Proof. reflexivity. Qed.

Lemma queued_advance_read (b : CircularBuffer) :
  wf b -> _readPtr b <> _writePtr b ->
  queued b = slot b (rslot b) :: queued (advance_read b).
Proof.
  intros Hwf Hne.
  destruct (resident_advance_read b Hwf Hne) as [Hres Hpos].
  pose proof (rslot_advance_read b Hwf) as Hr'.
  destruct (wf_slots b Hwf) as (_ & Hc & _ & _ & (_ & Hri) & _).
  unfold queued. rewrite Hres, Hr'.
  change (_bufferSize (advance_read b)) with (_bufferSize b).
  replace (Z.to_nat (resident b)) with (S (Z.to_nat (resident b - 1))) by lia.
  rewrite <- cons_seq, <- seq_shift, map_cons, map_map.
  f_equal.
  - f_equal. rewrite Z.add_0_r. apply Z.mod_small. exact Hri.
  - apply map_ext. intros k. rewrite slot_advance_read. f_equal.
    rewrite Zplus_mod_idemp_l. f_equal. lia.
Qed.

Lemma memcpy_load_slot (b : CircularBuffer) (i : Z) :
  wf b -> 0 <= i < _bufferSize b ->
  memcpy_load (_buffer b) (i * _packetSize b) (_packetSize b)
  = Some (firstn (Z.to_nat (_packetSize b))
                 (skipn (Z.to_nat (i * _packetSize b)) (_buffer b))).
Proof.
  intros Hwf Hi. destruct (wf_slots b Hwf) as (Hsz & Hc & _ & Hraw & _).
  pose proof (wf_buffer b Hwf) as Hlen.
  unfold memcpy_load.
  replace ((0 <=? i * _packetSize b) && (0 <=? _packetSize b)
           && (i * _packetSize b + _packetSize b
               <=? Z.of_nat (length (_buffer b)))) with true; [reflexivity |].
  symmetry. rewrite !andb_true_iff, !Z.leb_le. rewrite Hlen, Hraw. nia.
Qed.

Lemma set_readPtr_idem (b : CircularBuffer) (v : Z) :
  set_readPtr v (advance_read b) = set_readPtr v b.
Proof. reflexivity. Qed.

Lemma set_readPtr_same (b : CircularBuffer) :
  set_readPtr (_readPtr b) b = b.
Proof. now destruct b. Qed.

(** The loop drains exactly the waiting elements, in [resident b] executions
    of its body, and leaves the read cursor on the write cursor. *)
Lemma read_loop_exact (fuel : nat) :
  forall (values : list T) (b : CircularBuffer),
    wf b ->
    read_loop fuel values b
    = if resident b <=? Z.of_nat fuel
      then Returns (values ++ queued b) (set_readPtr (_writePtr b) b)
      else OutOfFuel.
Proof.
  induction fuel as [| fuel IH]; intros values b Hwf;
    cbn [read_loop]; destruct (Z.eqb_spec (_readPtr b) (_writePtr b)) as [E | N];
    cbn [negb].
  - apply (resident_zero_iff b Hwf) in E as Hz.
    unfold queued. rewrite Hz. cbn. rewrite app_nil_r, <- E.
    now rewrite set_readPtr_same.
  - destruct (resident_advance_read b Hwf N) as [_ Hpos].
    destruct (Z.leb_spec (resident b) (Z.of_nat 0)); [lia | reflexivity].
  - apply (resident_zero_iff b Hwf) in E as Hz.
    unfold queued. rewrite Hz. cbn [Z.to_nat seq map]. rewrite app_nil_r, <- E.
    rewrite set_readPtr_same.
    destruct (Z.leb_spec 0 (Z.of_nat (S fuel))); [reflexivity | lia].
  - destruct (resident_advance_read b Hwf N) as [Hres Hpos].
    destruct (wf_slots b Hwf) as (_ & _ & _ & _ & (Hr & Hri) & _).
    rewrite (proj1 (nextIndex_readPtr b Hwf)).
    rewrite Hr at 1. rewrite (memcpy_load_slot b _ Hwf Hri).
    fold (slot b (rslot b)). fold (advance_read b).
    rewrite (IH _ _ (wf_advance_read b Hwf)), Hres.
    rewrite (queued_advance_read b Hwf N), set_readPtr_idem, <- app_assoc.
    cbn [app].
    destruct (Z.leb_spec (resident b - 1) (Z.of_nat fuel));
      destruct (Z.leb_spec (resident b) (Z.of_nat (S fuel)));
      try lia; reflexivity.
Qed.

End ReadLoop.


(** ** Copies into the block *)

Section Splice.

Context {A : Type}.

Local Open Scope nat_scope.

(** A block cut at a window of [n] bytes starting at [a]. *)
Lemma block_window (l : list A) (a n : nat) :
  l = firstn a l ++ firstn n (skipn a l) ++ skipn (a + n) l.
Proof.
  rewrite (Nat.add_comm a n), <- skipn_skipn.
  now rewrite !firstn_skipn.
Qed.

Lemma window_same (pre mid post : list A) (a n : nat) :
  length pre = a -> length mid = n ->
  firstn n (skipn a (pre ++ mid ++ post)) = mid.
Proof.
  intros Ha Hn. rewrite skipn_app, skipn_all2 by lia.
  rewrite Ha, Nat.sub_diag. cbn [skipn app].
  rewrite firstn_app, Hn, Nat.sub_diag, firstn_all2 by lia.
  cbn [firstn]. apply app_nil_r.
Qed.

Lemma window_before (pre rest : list A) (a m : nat) :
  a + m <= length pre ->
  firstn m (skipn a (pre ++ rest)) = firstn m (skipn a pre).
Proof.
  intros H. rewrite skipn_app.
  replace (a - length pre)%nat with 0%nat by lia. cbn [skipn].
  rewrite firstn_app, length_skipn.
  replace (m - (length pre - a))%nat with 0%nat by lia.
  cbn [firstn]. apply app_nil_r.
Qed.

Lemma window_after (pre mid post : list A) (a : nat) :
  length pre + length mid <= a ->
  skipn a (pre ++ mid ++ post) = skipn (a - length pre - length mid) post.
Proof.
  intros H. rewrite skipn_app, skipn_all2 by lia. cbn [app].
  rewrite skipn_app, skipn_all2 by lia. reflexivity.
Qed.

(** Replacing a window leaves every window that does not meet it as it was. *)
Lemma window_other (l mid : list A) (a n a' m : nat) :
  a + n <= length l -> length mid = n ->
  a' + m <= a \/ a + n <= a' ->
  firstn m (skipn a' (firstn a l ++ mid ++ skipn (a + n) l))
  = firstn m (skipn a' l).
Proof.
  intros Hl Hmid Hdisj.
  assert (Hpre : length (firstn a l) = a) by (rewrite length_firstn; lia).
  destruct Hdisj as [B | Af].
  - rewrite window_before by lia.
    rewrite (block_window l a n) at 2.
    rewrite window_before by lia. reflexivity.
  - rewrite window_after by lia.
    rewrite (block_window l a n) at 3.
    rewrite window_after
      by (rewrite Hpre, length_firstn, length_skipn; lia).
    rewrite Hpre, Hmid, length_firstn, length_skipn.
    replace (Nat.min n (length l - a)) with n by lia. reflexivity.
Qed.

Lemma window_length (l mid : list A) (a n : nat) :
  a + n <= length l -> length mid = n ->
  length (firstn a l ++ mid ++ skipn (a + n) l) = length l.
Proof.
  intros Hl Hmid.
  rewrite !length_app, length_firstn, length_skipn. lia.
Qed.

End Splice.

(** ** The loop of [write] *)

Section WriteLoop.

Context {T : Type} `{PT : Packet T}.

Lemma to_bytes_whole (b : CircularBuffer) (p : T) :
  wf b ->
  firstn (Z.to_nat (_packetSize b)) (to_bytes p) = to_bytes p /\
  length (to_bytes p) = Z.to_nat (_packetSize b).
Proof.
  intros Hwf. pose proof (to_bytes_length p) as Hl.
  rewrite <- (wf_packetSize b Hwf) in Hl.
  split; [apply firstn_all2 |]; lia.
Qed.

Lemma memcpy_store_writePtr (b : CircularBuffer) (p : T) :
  wf b ->
  memcpy_store (_buffer b) (_writePtr b) (to_bytes p) (_packetSize b)
  = Some (store_at b p).
Proof.
  intros Hwf.
  destruct (wf_slots b Hwf) as (Hsz & Hc & _ & Hraw & _ & (Hw & Hwi)).
  pose proof (wf_buffer b Hwf) as Hlen.
  destruct (to_bytes_whole b p Hwf) as [_ Hl].
  unfold memcpy_store.
  replace ((0 <=? _writePtr b) && (0 <=? _packetSize b)
           && (_writePtr b + _packetSize b <=? Z.of_nat (length (_buffer b)))
           && (_packetSize b <=? Z.of_nat (length (to_bytes p))))
    with true; [reflexivity |].
  symmetry. rewrite !andb_true_iff, !Z.leb_le. rewrite Hlen, Hraw, Hl. nia.
Qed.

(** Where the write cursor's window lies in the block, in [nat]. *)
Lemma write_window (b : CircularBuffer) :
  wf b ->
  (Z.to_nat (_writePtr b) + Z.to_nat (_packetSize b)
   <= length (_buffer b))%nat /\
  Z.to_nat (_writePtr b + _packetSize b)
  = (Z.to_nat (_writePtr b) + Z.to_nat (_packetSize b))%nat.
Proof.
  intros Hwf.
  destruct (wf_slots b Hwf) as (Hsz & Hc & _ & Hraw & _ & (Hw & Hwi)).
  pose proof (wf_buffer b Hwf) as Hlen.
  assert (_writePtr b + _packetSize b <= _rawBufferSize b)
    by (rewrite Hraw; nia).
  assert (0 <= _writePtr b) by nia.
  lia.
Qed.

Lemma store_at_length (b : CircularBuffer) (p : T) :
  wf b -> length (store_at b p) = length (_buffer b).
Proof.
  intros Hwf. destruct (write_window b Hwf) as [Hin Hsum].
  destruct (to_bytes_whole b p Hwf) as [Hall Hl].
  unfold store_at. rewrite Hsum, Hall. now apply window_length.
Qed.

Lemma wslot_advance_write (b : CircularBuffer) (p : T) :
  wf b -> wslot (advance_write p b) = (wslot b + 1) mod _bufferSize b.
Proof.
  intros Hwf. destruct (wf_slots b Hwf) as (Hsz & _).
  unfold wslot at 1, advance_write. simpl.
  rewrite (proj2 (nextIndex_writePtr b Hwf)). now apply slot_of_mul.
Qed.

Lemma wf_advance_write (b : CircularBuffer) (p : T) :
  wf b -> wf (advance_write p b).
Proof.
  intros Hwf. pose proof (proj2 (nextIndex_writePtr b Hwf)) as Hn.
  pose proof (store_at_length b p Hwf) as Hsl.
  destruct (wf_slots b Hwf) as (Hsz & Hc & _ & Hraw & _).
  pose proof (succ_mod_range (_bufferSize b) (wslot b) Hc) as Hm.
  destruct Hwf as [Hps Hbs _ Hfit Hlen Hra Hrr Hwa Hwr].
  constructor; simpl; try assumption.
  - now rewrite Hsl.
  - rewrite Hn. apply Z.divide_factor_r.
  - rewrite Hn, Hraw. nia.
Qed.

Lemma free_advance_write (b : CircularBuffer) (p : T) :
  wf b -> advance b (_writePtr b) <> _readPtr b ->
  resident (advance_write p b) = resident b + 1 /\
  free (advance_write p b) = free b - 1 /\ 1 <= free b.
Proof.
  intros Hwf Hne.
  pose proof (wslot_advance_write b p Hwf) as Hw'.
  rewrite (full_iff_slots b Hwf) in Hne.
  destruct (wf_slots b Hwf) as (_ & Hc & _ & _ & (_ & Hri) & (_ & Hwi)).
  unfold free, resident. rewrite Hw'.
  change (rslot (advance_write p b)) with (rslot b).
  change (_bufferSize (advance_write p b)) with (_bufferSize b).
  pose proof (succ_mod_range (_bufferSize b) (wslot b) Hc) as Hm.
  destruct (dist_mod_cases _ _ _ Hri Hm) as [[L E] | [L E]]; rewrite E;
    destruct (dist_mod_cases _ _ _ Hri Hwi) as [[L' E'] | [L' E']]; rewrite E';
    destruct (succ_mod_cases _ _ Hc Hwi) as [[L2 E2] | [L2 E2]];
    rewrite E2 in *; lia.
Qed.

Lemma slot_advance_write_same (b : CircularBuffer) (p : T) :
  wf b -> slot (advance_write p b) (wslot b) = p.
Proof.
  intros Hwf. destruct (write_window b Hwf) as [Hin Hsum].
  destruct (to_bytes_whole b p Hwf) as [Hall Hl].
  destruct (wf_slots b Hwf) as (_ & _ & _ & _ & _ & (Hw & _)).
  unfold slot, advance_write. simpl. rewrite <- Hw.
  unfold store_at. rewrite Hall, window_same; [apply of_to_bytes | | exact Hl].
  rewrite length_firstn. lia.
Qed.

Lemma slot_advance_write_other (b : CircularBuffer) (p : T) (j : Z) :
  wf b -> 0 <= j < _bufferSize b -> j <> wslot b ->
  slot (advance_write p b) j = slot b j.
Proof.
  intros Hwf Hj Hne. destruct (write_window b Hwf) as [Hin Hsum].
  destruct (to_bytes_whole b p Hwf) as [Hall Hl].
  destruct (wf_slots b Hwf) as (Hsz & _ & _ & _ & _ & (Hw & Hwi)).
  unfold slot, advance_write. simpl.
  unfold store_at. rewrite Hall, Hsum. f_equal.
  apply window_other; [exact Hin | exact Hl |].
  destruct (Z_lt_ge_dec j (wslot b)) as [L | G].
  - left. assert (j * _packetSize b + _packetSize b <= _writePtr b)
      by (rewrite Hw; nia).
    assert (0 <= j * _packetSize b) by nia. lia.
  - right. assert (_writePtr b + _packetSize b <= j * _packetSize b)
      by (rewrite Hw; nia).
    assert (0 <= _writePtr b) by nia. lia.
Qed.

Lemma queued_advance_write (b : CircularBuffer) (p : T) :
  wf b -> advance b (_writePtr b) <> _readPtr b ->
  queued (advance_write p b) = queued b ++ [p].
Proof.
  intros Hwf Hne.
  destruct (free_advance_write b p Hwf Hne) as (Hres & _ & _).
  pose proof (resident_range b Hwf) as Hrr.
  destruct (wf_slots b Hwf) as (_ & Hc & _ & _ & (_ & Hri) & (_ & Hwi)).
  unfold queued. rewrite Hres.
  change (rslot (advance_write p b)) with (rslot b).
  change (_bufferSize (advance_write p b)) with (_bufferSize b).
  replace (Z.to_nat (resident b + 1)) with (S (Z.to_nat (resident b))) by lia.
  rewrite seq_S, map_app. cbn [map Nat.add]. f_equal.
  - apply map_ext_in. intros k Hk. apply in_seq in Hk.
    apply slot_advance_write_other; [exact Hwf | apply Z.mod_pos_bound; lia |].
    assert (Hk' : 0 <= Z.of_nat k < resident b) by lia.
    unfold resident in Hk'.
    destruct (dist_mod_cases _ _ _ Hri Hwi) as [[L E] | [L E]];
      rewrite E in Hk';
      destruct (Z_lt_ge_dec (rslot b + Z.of_nat k) (_bufferSize b)) as [S1 | S1].
    + rewrite Z.mod_small by lia. lia.
    + lia.
    + rewrite Z.mod_small by lia. lia.
    + rewrite <- (Z.mod_add _ (-1) _) by lia. rewrite Z.mod_small by lia. lia.
  - f_equal. rewrite Z2Nat.id by lia.
    replace ((rslot b + resident b) mod _bufferSize b) with (wslot b);
      [now apply slot_advance_write_same |].
    unfold resident. rewrite Zplus_mod_idemp_r.
    replace (rslot b + (wslot b - rslot b)) with (wslot b) by ring.
    symmetry. now apply Z.mod_small.
Qed.

End WriteLoop.

(** ** What the two loops compute *)

Section Loops.

Context {T : Type} `{PT : Packet T}.

(** As long as [packets[packetIndex]] exists the loop runs until the buffer
    is full: [free b] executions of the body, each copying that same
    element, and [packetIndex] comes back as it went in. *)
Lemma write_loop_exact (packets : list T) (packetIndex : Z) (p : T) :
  nth_error packets (Z.to_nat packetIndex) = Some p ->
  packetIndex < Z.of_nat (length packets) ->
  forall (fuel : nat) (b : CircularBuffer),
    wf b ->
    write_loop fuel packets packetIndex b
    = if free b <=? Z.of_nat fuel
      then Returns packetIndex (fill p (Z.to_nat (free b)) b)
      else OutOfFuel.
Proof.
  intros Hnth Hlt.
  apply Z.ltb_lt in Hlt.
  induction fuel as [| fuel IH]; intros b Hwf; cbn [write_loop];
    rewrite (proj1 (nextIndex_writePtr b Hwf)), Hlt;
    destruct (Z.eqb_spec (_readPtr b) (advance b (_writePtr b))) as [E | N];
    cbn [negb andb].
  - symmetry in E. apply (free_zero_iff b Hwf) in E. rewrite E. reflexivity.
  - assert (N' : advance b (_writePtr b) <> _readPtr b) by congruence.
    destruct (free_advance_write b p Hwf N') as (_ & _ & Hpos).
    destruct (Z.leb_spec (free b) (Z.of_nat 0)); [lia | reflexivity].
  - symmetry in E. apply (free_zero_iff b Hwf) in E. rewrite E.
    destruct (Z.leb_spec 0 (Z.of_nat (S fuel))); [reflexivity | lia].
  - assert (N' : advance b (_writePtr b) <> _readPtr b) by congruence.
    destruct (free_advance_write b p Hwf N') as (_ & Hfree & Hpos).
    rewrite Hnth, (memcpy_store_writePtr b p Hwf).
    change (nextIndex (set_buffer (store_at b p) b)
                      (_writePtr (set_buffer (store_at b p) b)))
      with (nextIndex b (_writePtr b)).
    rewrite (proj1 (nextIndex_writePtr b Hwf)).
    fold (advance_write p b).
    rewrite (IH _ (wf_advance_write b p Hwf)), Hfree.
    replace (Z.to_nat (free b)) with (S (Z.to_nat (free b - 1))) by lia.
    unfold fill. rewrite Nat.iter_succ_r.
    destruct (Z.leb_spec (free b - 1) (Z.of_nat fuel));
      destruct (Z.leb_spec (free b) (Z.of_nat (S fuel)));
      try lia; reflexivity.
Qed.

Lemma fill_spec (p : T) (n : nat) :
  forall b : CircularBuffer,
    wf b -> Z.of_nat n <= free b ->
    wf (fill p n b) /\
    same_geometry b (fill p n b) /\
    _readPtr (fill p n b) = _readPtr b /\
    free (fill p n b) = free b - Z.of_nat n /\
    queued (fill p n b) = queued b ++ repeat p n /\
    _writePtr (fill p n b) = Nat.iter n (advance b) (_writePtr b).
Proof.
  unfold fill.
  induction n as [| n IH]; intros b Hwf Hn.
  - cbn. rewrite app_nil_r, Z.sub_0_r. unfold same_geometry. tauto.
  - destruct (IH b Hwf ltac:(lia)) as (Hwf' & (G1 & G2 & G3) & Hr & Hf & Hq & Hw).
    rewrite !Nat.iter_succ. set (b' := Nat.iter n (advance_write p) b) in *.
    assert (N : advance b' (_writePtr b') <> _readPtr b').
    { intros E. apply (free_zero_iff b' Hwf') in E. lia. }
    destruct (free_advance_write b' p Hwf' N) as (_ & Hfree & _).
    refine (conj _ (conj _ (conj _ (conj _ (conj _ _))))).
    + now apply wf_advance_write.
    + unfold same_geometry. cbn. auto.
    + exact Hr.
    + rewrite Hfree, Hf. lia.
    + rewrite (queued_advance_write b' p Hwf' N), Hq, <- app_assoc.
      f_equal. symmetry. apply (repeat_cons n p).
    + cbn [advance_write set_writePtr set_buffer _writePtr].
      rewrite <- Hw. unfold advance. now rewrite G1, G3.
Qed.

End Loops.

(** ** The public member functions on a well-formed buffer *)

Section Behaviour.

Context {T : Type} `{PT : Packet T}.

Lemma read_exact (fuel : nat) (b : CircularBuffer) :
  wf b ->
  read fuel b
  = if _readPtr b =? _writePtr b
    then Throws ErrorNothingToRead b
    else if resident b <=? Z.of_nat fuel
         then Returns (queued b) (set_readPtr (_writePtr b) b)
         else OutOfFuel.
Proof.
  intros Hwf. unfold read, canReadNotThreadSafe.
  destruct (_readPtr b =? _writePtr b); cbn [negb Bool.eqb];
    [reflexivity |].
  now rewrite (read_loop_exact fuel [] b Hwf).
Qed.

Lemma to_ssize_small (z : Z) : 0 <= z < 2 ^ (size_bits - 1) -> to_ssize z = z.
Proof.
  intros H. unfold to_ssize.
  destruct (Z.ltb_spec z (2 ^ (size_bits - 1))); [reflexivity | lia].
Qed.

(** On a well-formed buffer the fullness test never divides by zero. *)
Lemma canWrite_defined (b : CircularBuffer) :
  wf b ->
  canWriteNotThreadSafe b
  = Some (negb (advance b (_writePtr b) =? _readPtr b)).
Proof.
  intros Hwf. unfold canWriteNotThreadSafe.
  now rewrite (proj1 (nextIndex_writePtr b Hwf)).
Qed.

Lemma write_exact (fuel : nat) (rm : bool) (b : CircularBuffer)
      (p : T) (ps : list T) :
  wf b ->
  write fuel rm (b, p :: ps)
  = if advance b (_writePtr b) =? _readPtr b
    then Throws ErrorBufferBusy (b, p :: ps)
    else if free b <=? Z.of_nat fuel
         then Returns 0 (fill p (Z.to_nat (free b)) b, p :: ps)
         else OutOfFuel.
Proof.
  intros Hwf. unfold write. rewrite (canWrite_defined b Hwf).
  destruct (advance b (_writePtr b) =? _readPtr b); cbn [negb Bool.eqb];
    [reflexivity |].
  rewrite (write_loop_exact (p :: ps) 0 p) by (cbn; (reflexivity || lia) || exact Hwf).
  destruct (free b <=? Z.of_nat fuel); [| reflexivity].
  rewrite to_ssize_small by (unfold size_bits; lia).
  now destruct rm.
Qed.

(** The iterates of [advance] from a cursor of a well-formed buffer stay on
    slot boundaries inside the block, and [nextIndex] computes them. *)
Lemma iter_advance_cursor (b : CircularBuffer) (n : nat) (index : Z) :
  wf b -> (_packetSize b | index) -> 0 <= index < _rawBufferSize b ->
  iter_nextIndex b n index = Some (Nat.iter n (advance b) index) /\
  (_packetSize b | Nat.iter n (advance b) index) /\
  0 <= Nat.iter n (advance b) index < _rawBufferSize b.
Proof.
  intros Hwf Ha Hi.
  destruct (wf_slots b Hwf) as (Hsz & Hc & Hfit & Hraw & _).
  induction n as [| n (E & A & R)]; [cbn; auto |].
  rewrite Nat.iter_succ. cbn [iter_nextIndex]. rewrite E.
  set (x := Nat.iter n (advance b) index) in *.
  split; [now apply nextIndex_advance |].
  rewrite Hraw in R.
  destruct (aligned_slot _ _ _ Hsz A R) as [Es Hs].
  pose proof (advance_slot b _ Hwf Hs) as Hk. rewrite <- Es in Hk.
  pose proof (succ_mod_range (_bufferSize b) (x / _packetSize b) Hc).
  rewrite Hk.
  split; [apply Z.divide_factor_r | rewrite Hraw; nia].
Qed.

(** The read cursor meets the write cursor after [resident b] steps. *)
Lemma iter_advance_readPtr (n : nat) :
  forall b : CircularBuffer,
    wf b -> resident b = Z.of_nat n ->
    Nat.iter n (advance b) (_readPtr b) = _writePtr b.
Proof.
  induction n as [| n IH]; intros b Hwf Hres.
  - cbn. apply (resident_zero_iff b Hwf). exact Hres.
  - assert (N : _readPtr b <> _writePtr b).
    { intros E. apply (resident_zero_iff b Hwf) in E. lia. }
    destruct (resident_advance_read b Hwf N) as [Hres' _].
    rewrite Nat.iter_succ_r.
    apply (IH (advance_read b) (wf_advance_read b Hwf)). lia.
Qed.

(** *** Construction *)

Lemma new_bytes_length (n : Z) (h : Heap) (block : list byte) :
  new_bytes n h = Some block -> length block = Z.to_nat n.
Proof.
  unfold new_bytes. destruct (n <=? heap_free h); [| discriminate].
  intros H. injection H as <-. now rewrite length_map, length_seq.
Qed.

(** The allocation is the only thing that decides between [BadAlloc] and the
    rest. *)
Lemma new_bytes_spec (n : Z) (h : Heap) :
  (n <= heap_free h -> exists block, new_bytes n h = Some block) /\
  (heap_free h < n -> new_bytes n h = None).
Proof.
  unfold new_bytes. destruct (Z.leb_spec n (heap_free h)); split; intros;
    try lia; eauto.
Qed.

(** What a completed construction has built, whatever the product
    [sizeof(T) * bufferSize] is: the block has as many bytes as its reduction
    to [std::size_t]. *)
Lemma new_constructed (bufferSize : Z) (h : Heap) (b : CircularBuffer) :
  CircularBuffer_new bufferSize h = Constructed b ->
  1 < bufferSize /\ wrap (sizeof * bufferSize) <= heap_free h /\
  _readPtr b = 0 /\ _writePtr b = 0 /\
  _bufferSize b = bufferSize /\ _packetSize b = sizeof /\
  _rawBufferSize b = wrap (sizeof * bufferSize) /\
  Z.of_nat (length (_buffer b)) = wrap (sizeof * bufferSize).
Proof.
  unfold CircularBuffer_new, new_bytes.
  destruct (Z.leb_spec (wrap (sizeof * bufferSize)) (heap_free h))
    as [Hroom | ?]; [| discriminate].
  destruct (Z.ltb_spec 1 bufferSize) as [Hc | Hc]; [| discriminate].
  intros H. injection H as <-.
  cbn [_packetSize _bufferSize _rawBufferSize _buffer _readPtr _writePtr].
  rewrite length_map, length_seq.
  assert (0 <= wrap (sizeof * bufferSize))
    by (apply Z.mod_pos_bound; reflexivity).
  repeat split; try (reflexivity || lia).
Qed.

Lemma new_succeeds (bufferSize : Z) (h : Heap) :
  1 < bufferSize -> wrap (sizeof * bufferSize) <= heap_free h ->
  exists b, CircularBuffer_new bufferSize h = Constructed b.
Proof.
  intros Hc Hroom. unfold CircularBuffer_new.
  destruct (proj1 (new_bytes_spec _ h) Hroom) as [block ->].
  destruct (Z.ltb_spec 1 bufferSize); [eauto | lia].
Qed.

Lemma new_wf (bufferSize : Z) (h : Heap) (b : CircularBuffer) :
  sizeof * bufferSize < size_modulus ->
  CircularBuffer_new bufferSize h = Constructed b ->
  wf b /\ _bufferSize b = bufferSize /\ _readPtr b = 0 /\ _writePtr b = 0.
Proof.
  intros Hfit Hnew.
  destruct (new_constructed bufferSize h b Hnew)
    as (Hc & _ & Hr & Hw & Hbs & Hps & Hraw & Hlen).
  pose proof sizeof_range as Hsz.
  assert (Hwrap : wrap (sizeof * bufferSize) = sizeof * bufferSize)
    by (apply wrap_small; nia).
  rewrite Hwrap in Hraw, Hlen.
  split; [| auto].
  constructor; rewrite ?Hr, ?Hw, ?Hraw, ?Hps, ?Hbs, ?Hlen;
    try apply Z.divide_0_r; try (reflexivity || lia || nia).
Qed.

(** *** Sequences of calls *)

Lemma wf_set_readPtr_writePtr (b : CircularBuffer) :
  wf b -> wf (set_readPtr (_writePtr b) b).
Proof.
  intros [Hps Hbs Hraw Hfit Hlen Hra Hrr Hwa Hwr].
  constructor; simpl; assumption.
Qed.

Lemma step_wf (b b' : CircularBuffer) :
  wf b -> step b b' -> wf b' /\ _bufferSize b' = _bufferSize b.
Proof.
  intros Hwf Hstep.
  destruct Hstep as [fuel b b' H | fuel rm packets packets' b b' H
                     | b b' H | b b' H].
  - rewrite (read_exact fuel b Hwf) in H.
    destruct (_readPtr b =? _writePtr b); cbn in H.
    + injection H as <-. auto.
    + destruct (resident b <=? Z.of_nat fuel); cbn in H; [| discriminate].
      injection H as <-. split; [now apply wf_set_readPtr_writePtr | reflexivity].
  - destruct packets as [| p ps].
    + cbn in H. injection H as <- _. auto.
    + rewrite (write_exact fuel rm b p ps Hwf) in H.
      destruct (advance b (_writePtr b) =? _readPtr b); cbn in H.
      * injection H as <- _. auto.
      * destruct (Z.leb_spec (free b) (Z.of_nat fuel)); cbn in H;
          [| discriminate].
        injection H as <- _.
        pose proof (free_range b Hwf).
        destruct (fill_spec p (Z.to_nat (free b)) b Hwf ltac:(lia))
          as (Hwf' & (_ & G & _) & _).
        auto.
  - cbn in H. injection H as <-. auto.
  - unfold canWrite in H. rewrite (canWrite_defined b Hwf) in H.
    cbn in H. injection H as <-. auto.
Qed.

Lemma reachable_wf (bufferSize : Z) (b : CircularBuffer) :
  sizeof * bufferSize < size_modulus ->
  reachable bufferSize b -> wf b /\ _bufferSize b = bufferSize.
Proof.
  intros Hfit Hreach.
  induction Hreach as [h b Hnew | b b' _ [IHwf IHc] Hstep].
  - destruct (new_wf bufferSize h b Hfit Hnew) as (Hwf & Hc & _). auto.
  - destruct (step_wf b b' IHwf Hstep) as [Hwf' Hc']. split; [exact Hwf' | lia].
Qed.

End Behaviour.

(** ** What a write followed by a read gives *)

Section WriteThenRead.

Context {T : Type} `{PT : Packet T}.

Lemma queued_length (b : CircularBuffer) :
  wf b -> Z.of_nat (length (queued b)) = resident b.
Proof.
  intros Hwf. pose proof (resident_range b Hwf).
  unfold queued. rewrite length_map, length_seq. lia.
Qed.

Lemma canWrite_iff_free (b : CircularBuffer) :
  wf b ->
  (canWriteNotThreadSafe b = Some true <-> 0 < free b) /\
  (canWriteNotThreadSafe b = Some false <-> free b = 0).
Proof.
  intros Hwf. pose proof (free_range b Hwf) as Hf.
  pose proof (free_zero_iff b Hwf) as Hz.
  rewrite (canWrite_defined b Hwf).
  destruct (Z.eqb_spec (advance b (_writePtr b)) (_readPtr b)) as [E | N];
    cbn [negb].
  - apply Hz in E. repeat split; intros; try discriminate; try lia; auto.
  - assert (free b <> 0) by (intros Z0; apply Hz in Z0; contradiction).
    repeat split; intros; try discriminate; try lia; auto.
Qed.

(** The two cursor tests as tests on [advance]. *)
Lemma canWrite_true_advance (b : CircularBuffer) :
  wf b -> canWriteNotThreadSafe b = Some true ->
  (advance b (_writePtr b) =? _readPtr b) = false.
Proof.
  intros Hwf H. rewrite (canWrite_defined b Hwf) in H.
  injection H as H. now apply negb_true_iff.
Qed.

(** A write of a non-empty vector into a buffer with room fills all the room
    with copies of the vector's first element, reports 0 elements written and
    leaves the vector as it was, whatever the removal flag. *)
Lemma write_fills_with_first (rm : bool) (b : CircularBuffer)
      (p : T) (ps : list T) :
  wf b -> canWriteNotThreadSafe b = Some true ->
  exists b',
    write (Z.to_nat (free b)) rm (b, p :: ps) = Returns 0 (b', p :: ps) /\
    wf b' /\ _bufferSize b' = _bufferSize b /\ free b' = 0 /\
    queued b' = queued b ++ repeat p (Z.to_nat (free b)).
Proof.
  intros Hwf Hcan. pose proof (free_range b Hwf) as Hf.
  rewrite (write_exact _ rm b p ps Hwf).
  rewrite (canWrite_true_advance b Hwf Hcan).
  destruct (Z.leb_spec (free b) (Z.of_nat (Z.to_nat (free b)))); [| lia].
  destruct (fill_spec p (Z.to_nat (free b)) b Hwf ltac:(lia))
    as (Hwf' & (_ & G & _) & _ & Hfree & Hq & _).
  eexists. split; [reflexivity |].
  refine (conj Hwf' (conj G (conj _ Hq))). lia.
Qed.

(** The read that follows returns what was waiting before the write, then
    those copies. *)
Lemma write_then_read (rm : bool) (b : CircularBuffer) (p : T) (ps : list T) :
  wf b -> canWriteNotThreadSafe b = Some true ->
  exists b' b'',
    write (Z.to_nat (free b)) rm (b, p :: ps) = Returns 0 (b', p :: ps) /\
    read (Z.to_nat (_bufferSize b)) b'
    = Returns (queued b ++ repeat p (Z.to_nat (free b))) b'' /\
    canRead b'' = Returns false b''.
Proof.
  intros Hwf Hcan.
  destruct (write_fills_with_first rm b p ps Hwf Hcan)
    as (b' & Hw & Hwf' & Hc & Hfree & Hq).
  pose proof (resident_range b' Hwf') as Hr.
  exists b', (set_readPtr (_writePtr b') b').
  split; [exact Hw |].
  rewrite (read_exact _ b' Hwf').
  destruct (Z.eqb_spec (_readPtr b') (_writePtr b')) as [E | N].
  - apply (resident_zero_iff b' Hwf') in E. unfold free in Hfree.
    pose proof (wf_bufferSize b' Hwf'). lia.
  - destruct (Z.leb_spec (resident b') (Z.of_nat (Z.to_nat (_bufferSize b))));
      [| lia].
    rewrite Hq. split; [reflexivity |].
    unfold canRead, canReadNotThreadSafe. cbn.
    now rewrite Z.eqb_refl.
Qed.

End WriteThenRead.

(** ** Example buffers of [std::uint16_t] *)

Lemma fresh4_new :
  CircularBuffer_new (T:=uint16) 4 ample_heap = Constructed fresh4.
Proof. reflexivity. Qed.

Lemma fresh5_new :
  CircularBuffer_new (T:=uint16) 5 ample_heap = Constructed fresh5.
Proof. reflexivity. Qed.

Lemma zero_block_new :
  CircularBuffer_new (T:=uint16) (2 ^ 63) ample_heap = Constructed zero_block.
Proof. reflexivity. Qed.

Lemma uint16_fits (c : Z) :
  0 <= c < 2 ^ 62 -> sizeof (T:=uint16) * c < size_modulus.
Proof.
  intros H. change (sizeof (T:=uint16)) with 2.
  change size_modulus with 18446744073709551616.
  change (2 ^ 62) with 4611686018427387904 in H. lia.
Qed.

Lemma fresh5_wf : wf (T:=uint16) fresh5.
Proof.
  apply (new_wf (T:=uint16) 5 ample_heap fresh5); [| exact fresh5_new].
  apply uint16_fits. lia.
Qed.

Lemma partial5_wf : wf (T:=uint16) partial5.
Proof.
  constructor; try reflexivity; try (split; [vm_compute; discriminate | reflexivity]).
  - exists 0. reflexivity.
  - exists 2. reflexivity.
Qed.

Lemma default_new :
  exists b,
    CircularBuffer_new (T:=uint16) default_bufferSize ample_heap
    = Constructed b /\
    _bufferSize b = 20 /\ _rawBufferSize b = 40.
Proof. eexists. split; [reflexivity |]. split; reflexivity. Qed.

Lemma full4_written :
  write 3 true (fresh4, map u16 [7; 8; 9])
  = Returns 0 (full4, map u16 [7; 8; 9]).
Proof. vm_compute. reflexivity. Qed.

Lemma wrapped5_history :
  exists b1 b2,
    write 4 true (fresh5, map u16 [1; 2; 3])
    = Returns 0 (b1, map u16 [1; 2; 3]) /\
    read (T:=uint16) 4 b1 = Returns (map u16 [1; 1; 1; 1]) b2 /\
    write 4 false (b2, map u16 [4; 5]) = Returns 0 (wrapped5, map u16 [4; 5]).
Proof.
  exists (mkCircularBuffer 2 5 10
            (flat_map to_bytes (map u16 [1; 1; 1; 1; 0])) 0 8).
  exists (mkCircularBuffer 2 5 10
            (flat_map to_bytes (map u16 [1; 1; 1; 1; 0])) 8 8).
  split; [vm_compute; reflexivity |].
  split; [vm_compute; reflexivity |].
  vm_compute; reflexivity.
Qed.

Lemma wrapped5_reachable : reachable (T:=uint16) 5 wrapped5.
Proof.
  destruct wrapped5_history as (b1 & b2 & H1 & H2 & H3).
  apply (reach_step 5 b2).
  - apply (reach_step 5 b1).
    + apply (reach_step 5 fresh5).
      * exact (reach_new 5 ample_heap fresh5 fresh5_new).
      * apply (step_write 4 true (map u16 [1; 2; 3]) (map u16 [1; 2; 3])).
        now rewrite H1.
    + apply (step_read 4). now rewrite H2.
  - apply (step_write 4 false (map u16 [4; 5]) (map u16 [4; 5])).
    now rewrite H3.
Qed.

Lemma wrapped5_wf : wf (T:=uint16) wrapped5.
Proof.
  apply (reachable_wf 5 wrapped5); [reflexivity | exact wrapped5_reachable].
Qed.

Lemma fresh5_reachable : reachable (T:=uint16) 5 fresh5.
Proof. exact (reach_new 5 ample_heap fresh5 fresh5_new). Qed.

Lemma zero_block_reachable : reachable (T:=uint16) (2 ^ 63) zero_block.
Proof. exact (reach_new (2 ^ 63) ample_heap zero_block zero_block_new). Qed.

(** ** The specification's claims *)

Section Claims.

Context {T : Type} `{PT : Packet T}.

(** C4.  On an empty buffer ([_readPtr == _writePtr]) [read] throws
    [ErrorNothingToRead], and the buffer the caller is left with is the one
    it had: same cursors, same bytes. *)
Theorem read_empty_throws (fuel : nat) (b : CircularBuffer) :
  _readPtr b = _writePtr b ->
  read fuel b = Throws ErrorNothingToRead b.
Proof.
  intros E. unfold read, canReadNotThreadSafe.
  now rewrite E, Z.eqb_refl.
Qed.

(** C5.  On a full buffer ([nextIndex(_writePtr) == _readPtr]) [write] with
    a non-empty vector throws [ErrorBufferBusy]; cursors, bytes and the
    caller's vector are as they were. *)
Theorem write_full_throws (fuel : nat) (rm : bool) (b : CircularBuffer)
        (packets : list T) :
  packets <> [] ->
  nextIndex b (_writePtr b) = Some (_readPtr b) ->
  write fuel rm (b, packets) = Throws ErrorBufferBusy (b, packets).
Proof.
  intros Hne E. destruct packets as [| p ps]; [contradiction |].
  unfold write, canWriteNotThreadSafe.
  now rewrite E, Z.eqb_refl.
Qed.

(** C6, amended.  [canRead()] returns true exactly when
    [_readPtr != _writePtr], in every state.  In every state whose block is
    not empty, [canWrite()] returns true exactly when
    [nextIndex(_writePtr) != _readPtr], which on a well-formed buffer is the
    spec's [advance(writeCursor) != readCursor]; with an empty block it
    divides by zero.  A query that returns leaves the buffer as it is. *)
Theorem canRead_canWrite_spec (b : CircularBuffer) :
  (exists v, canRead b = Returns v b /\
             (v = true <-> _readPtr b <> _writePtr b)) /\
  (_rawBufferSize b <> 0 ->
   exists v next,
     nextIndex b (_writePtr b) = Some next /\
     canWrite b = Returns v b /\
     (v = true <-> next <> _readPtr b)) /\
  (_rawBufferSize b = 0 -> canWrite b = Undefined) /\
  (wf b -> nextIndex b (_writePtr b) = Some (advance b (_writePtr b))).
Proof.
  refine (conj _ (conj _ (conj _ _))).
  - eexists. split; [reflexivity |]. unfold canReadNotThreadSafe.
    destruct (Z.eqb_spec (_readPtr b) (_writePtr b)); cbn [negb];
      split; intros; congruence.
  - intros Hraw. unfold canWrite, canWriteNotThreadSafe.
    rewrite (nextIndex_defined b _ Hraw).
    eexists. eexists. split; [reflexivity |]. split; [reflexivity |].
    destruct (Z.eqb_spec (wrap (_writePtr b + _packetSize b)
                          mod _rawBufferSize b) (_readPtr b));
      cbn [negb]; split; intros; congruence.
  - intros Hraw. unfold canWrite, canWriteNotThreadSafe.
    now rewrite (nextIndex_trap b _ Hraw).
  - intros Hwf. exact (proj1 (nextIndex_writePtr b Hwf)).
Qed.

(** C10.  [write] with an empty vector returns 0 in every buffer state, a
    full buffer included, without an exception and without touching the
    buffer or the vector: the emptiness test comes before the fullness
    test. *)
Theorem write_empty_input (fuel : nat) (rm : bool) (b : CircularBuffer) :
  write fuel rm (b, @nil T) = Returns 0 (b, []).
Proof. reflexivity. Qed.

(** C7, amended.  In every state of a buffer constructed with [c] slots,
    [sizeof(T) * c] fitting [std::size_t], both cursors are multiples of the
    element size inside [[0, _rawBufferSize)]; they start at 0; on them
    [nextIndex] is the spec's [advance]; and the cursor a [read] or a
    [write] moves ends on an iterate of [advance] of where it started, the
    other cursor staying put. *)
Theorem cursor_invariant (c : Z) (b : CircularBuffer) :
  sizeof * c < size_modulus -> reachable c b ->
  (_packetSize b = sizeof /\ _rawBufferSize b = sizeof * c) /\
  ((sizeof | _readPtr b) /\ 0 <= _readPtr b < _rawBufferSize b) /\
  ((sizeof | _writePtr b) /\ 0 <= _writePtr b < _rawBufferSize b) /\
  (forall h b0, CircularBuffer_new c h = Constructed b0 ->
                _readPtr b0 = 0 /\ _writePtr b0 = 0) /\
  (nextIndex b (_readPtr b) = Some (advance b (_readPtr b)) /\
   nextIndex b (_writePtr b) = Some (advance b (_writePtr b))) /\
  (forall fuel values b',
      read fuel b = Returns values b' ->
      _readPtr b' = Nat.iter (length values) (advance b) (_readPtr b) /\
      _writePtr b' = _writePtr b) /\
  (forall fuel rm packets n b' packets',
      write fuel rm (b, packets) = Returns n (b', packets') ->
      exists m, Z.of_nat m <= free b /\
                _writePtr b' = Nat.iter m (advance b) (_writePtr b) /\
                _readPtr b' = _readPtr b).
Proof.
  intros Hfit Hreach.
  destruct (reachable_wf c b Hfit Hreach) as [Hwf Hc].
  pose proof (wf_packetSize b Hwf) as Hps.
  pose proof (wf_rawBufferSize b Hwf) as Hraw.
  pose proof (wf_readPtr_aligned b Hwf) as Hra.
  pose proof (wf_readPtr_range b Hwf) as Hrr.
  pose proof (wf_writePtr_aligned b Hwf) as Hwa.
  pose proof (wf_writePtr_range b Hwf) as Hwr.
  refine (conj _ (conj _ (conj _ (conj _ (conj _ (conj _ _)))))).
  - split; [exact Hps | now rewrite Hraw, Hps, Hc].
  - rewrite <- Hps. auto.
  - rewrite <- Hps. auto.
  - intros h b0 Hnew.
    destruct (new_wf c h b0 Hfit Hnew) as (_ & _ & R0 & W0). auto.
  - split; now apply nextIndex_advance.
  - intros fuel values b' Hread.
    rewrite (read_exact fuel b Hwf) in Hread.
    destruct (_readPtr b =? _writePtr b); [discriminate |].
    destruct (resident b <=? Z.of_nat fuel); [| discriminate].
    injection Hread as <- <-.
    cbn [set_readPtr _readPtr _writePtr]. split; [| reflexivity].
    symmetry. apply (iter_advance_readPtr _ b Hwf).
    symmetry. now apply queued_length.
  - intros fuel rm packets n b' packets' Hwrite.
    pose proof (free_range b Hwf) as Hf.
    destruct packets as [| p ps].
    + cbn in Hwrite. injection Hwrite as _ <- _.
      exists 0%nat. cbn. repeat split; lia.
    + rewrite (write_exact fuel rm b p ps Hwf) in Hwrite.
      destruct (advance b (_writePtr b) =? _readPtr b); [discriminate |].
      destruct (free b <=? Z.of_nat fuel); [| discriminate].
      injection Hwrite as _ <- _.
      destruct (fill_spec p (Z.to_nat (free b)) b Hwf ltac:(lia))
        as (_ & _ & Hr & _ & _ & Hw).
      exists (Z.to_nat (free b)).
      repeat split; [lia | exact Hw | exact Hr].
Qed.

(** C8.  On a buffer that satisfies the invariant [read] comes back after at
    most [resident b] executions of its loop body (the elements waiting at
    entry), and [write], for every vector and flag, after at most [free b]
    (the room at entry); neither count exceeds [_bufferSize b - 1]. *)
Theorem calls_terminate (b : CircularBuffer) :
  wf b ->
  (0 <= resident b <= _bufferSize b - 1 /\
   forall fuel, resident b <= Z.of_nat fuel ->
                terminated (read fuel b) = true) /\
  (0 <= free b <= _bufferSize b - 1 /\
   forall fuel rm (packets : list T),
     free b <= Z.of_nat fuel ->
     terminated (write fuel rm (b, packets)) = true).
Proof.
  intros Hwf. split; split.
  - now apply resident_range.
  - intros fuel Hfuel. rewrite (read_exact fuel b Hwf).
    destruct (_readPtr b =? _writePtr b); [reflexivity |].
    destruct (Z.leb_spec (resident b) (Z.of_nat fuel)); [reflexivity | lia].
  - now apply free_range.
  - intros fuel rm [| p ps] Hfuel; [reflexivity |].
    rewrite (write_exact fuel rm b p ps Hwf).
    destruct (advance b (_writePtr b) =? _readPtr b); [reflexivity |].
    destruct (Z.leb_spec (free b) (Z.of_nat fuel)); [reflexivity | lia].
Qed.

End Claims.

Section CapacityClaims.

Context {T : Type} `{PT : Packet T}.

Lemma firstn_app_exact (A : Type) (l l' : list A) :
  firstn (length l) (l ++ l') = l.
Proof.
  rewrite firstn_app, firstn_all, Nat.sub_diag. cbn [firstn].
  apply app_nil_r.
Qed.

(** X13.  A buffer constructed with [c] slots, [sizeof(T) * c] fitting
    [std::size_t], keeps the class invariant through every call, and in
    every buffer that satisfies it at most [c - 1] elements are waiting:
    that count is the number of elements a [read] returns, and the fullness
    test [nextIndex(_writePtr) == _readPtr] holds exactly at [c - 1] (one
    slot is kept empty).  A [write] of more elements than there is room for,
    into a buffer that is not full, returns a count smaller than the number
    requested and stops when the buffer is full: exactly [c - 1] elements are
    then waiting, the former ones first and in order, as the next [read]
    shows, and the invariant still holds. *)
Theorem capacity_bound (c : Z) :
  sizeof * c < size_modulus ->
  (forall b, reachable c b -> wf b /\ _bufferSize b = c) /\
  (forall b,
      wf b -> _bufferSize b = c ->
      resident b <= c - 1 /\
      (forall fuel values b',
          read fuel b = Returns values b' ->
          Z.of_nat (length values) = resident b /\
          Z.of_nat (length values) <= c - 1) /\
      (nextIndex b (_writePtr b) = Some (_readPtr b) <-> resident b = c - 1) /\
      (forall fuel (rm : bool) (packets : list T),
          resident b < c - 1 ->
          free b < Z.of_nat (length packets) ->
          free b <= Z.of_nat fuel ->
          exists n b' packets',
            write fuel rm (b, packets) = Returns n (b', packets') /\
            0 <= n < Z.of_nat (length packets) /\
            wf b' /\ _bufferSize b' = c /\
            resident b' = c - 1 /\
            firstn (length (queued b)) (queued b') = queued b /\
            forall fuel',
              c - 1 <= Z.of_nat fuel' ->
              exists values b'',
                read fuel' b' = Returns values b'' /\
                Z.of_nat (length values) = c - 1 /\
                firstn (length (queued b)) values = queued b)).
Proof.
  intros Hfit. split; [intros b Hreach; now apply reachable_wf |].
  intros b Hwf Hc.
  pose proof (resident_range b Hwf) as Hres.
  refine (conj _ (conj _ (conj _ _))).
  - lia.
  - intros fuel values b' Hread.
    rewrite (read_exact fuel b Hwf) in Hread.
    destruct (_readPtr b =? _writePtr b); [discriminate |].
    destruct (resident b <=? Z.of_nat fuel); [| discriminate].
    injection Hread as <- _. rewrite (queued_length b Hwf). lia.
  - rewrite (full_iff_nextIndex b Hwf). unfold free. lia.
  - intros fuel rm packets Hroom Hmore Hfuel.
    destruct packets as [| p ps].
    { pose proof (free_range b Hwf). cbn in Hmore. lia. }
    assert (Hnotfull : (advance b (_writePtr b) =? _readPtr b) = false).
    { apply Z.eqb_neq. intros E. apply (free_zero_iff b Hwf) in E.
      unfold free in E. lia. }
    rewrite (write_exact fuel rm b p ps Hwf), Hnotfull.
    destruct (Z.leb_spec (free b) (Z.of_nat fuel)); [| lia].
    pose proof (free_range b Hwf) as Hfr.
    destruct (fill_spec p (Z.to_nat (free b)) b Hwf ltac:(lia))
      as (Hwf' & (_ & G & _) & _ & Hfree & Hq & _).
    set (b' := fill p (Z.to_nat (free b)) b) in *.
    assert (Hres' : resident b' = c - 1) by (unfold free in *; lia).
    exists 0, b', (p :: ps).
    refine (conj eq_refl (conj _ (conj Hwf' (conj _ (conj Hres' (conj _ _)))))).
    + cbn [length]. lia.
    + lia.
    + rewrite Hq. apply firstn_app_exact.
    + intros fuel' Hfuel'.
      rewrite (read_exact fuel' b' Hwf').
      destruct (Z.eqb_spec (_readPtr b') (_writePtr b')) as [E | N].
      { apply (resident_zero_iff b' Hwf') in E. lia. }
      destruct (Z.leb_spec (resident b') (Z.of_nat fuel')); [| lia].
      eexists. eexists. split; [reflexivity |].
      split; [rewrite (queued_length b' Hwf'); exact Hres' |].
      rewrite Hq. apply firstn_app_exact.
Qed.

(** C9, amended.  The constructor allocates before it asserts: when the
    allocation fails, construction ends in [std::bad_alloc] whatever
    [bufferSize] is.  When it succeeds, construction with [bufferSize <= 1]
    stops on the assertion, and construction with [bufferSize > 1] such that
    [sizeof(T) * bufferSize] fits [std::size_t] gives a buffer with both
    cursors at 0 and a block of [sizeof(T) * bufferSize] bytes, which
    satisfies the class invariant. *)
Theorem construction_spec (bufferSize : Z) (h : Heap) :
  (new_bytes (wrap (sizeof * bufferSize)) h = None ->
   CircularBuffer_new bufferSize h = BadAlloc) /\
  (forall block,
      new_bytes (wrap (sizeof * bufferSize)) h = Some block ->
      (bufferSize <= 1 -> CircularBuffer_new bufferSize h = AssertionFailed) /\
      (1 < bufferSize -> sizeof * bufferSize < size_modulus ->
       exists b,
         CircularBuffer_new bufferSize h = Constructed b /\
         _readPtr b = 0 /\ _writePtr b = 0 /\
         _bufferSize b = bufferSize /\ _packetSize b = sizeof /\
         _rawBufferSize b = sizeof * bufferSize /\
         _buffer b = block /\
         Z.of_nat (length (_buffer b)) = sizeof * bufferSize /\
         wf b)).
Proof.
  split.
  - intros Hnone. unfold CircularBuffer_new. now rewrite Hnone.
  - intros block Hsome. split.
    + intros Hc. unfold CircularBuffer_new. rewrite Hsome.
      destruct (Z.ltb_spec 1 bufferSize); [lia | reflexivity].
    + intros Hc Hfit.
      assert (Hnew : CircularBuffer_new bufferSize h
                     = Constructed (mkCircularBuffer
                                      sizeof bufferSize
                                      (wrap (sizeof * bufferSize)) block 0 0)).
      { unfold CircularBuffer_new. rewrite Hsome.
        destruct (Z.ltb_spec 1 bufferSize); [reflexivity | lia]. }
      assert (Hblock : _buffer (mkCircularBuffer
                                  sizeof bufferSize
                                  (wrap (sizeof * bufferSize)) block 0 0)
                       = block) by reflexivity.
      revert Hnew Hblock.
      generalize (mkCircularBuffer sizeof bufferSize
                                   (wrap (sizeof * bufferSize)) block 0 0).
      intros b Hnew Hblock.
      destruct (new_constructed _ _ _ Hnew)
        as (_ & _ & Hr & Hw & Hbs & Hps & Hraw & Hlen).
      pose proof sizeof_range as Hsz.
      assert (Hwrap : wrap (sizeof * bufferSize) = sizeof * bufferSize)
        by (apply wrap_small; nia).
      destruct (new_wf bufferSize h _ Hfit Hnew) as (Hwf & _).
      exists b. split; [exact Hnew |]. rewrite Hwrap in Hraw, Hlen.
      exact (conj Hr (conj Hw (conj Hbs (conj Hps
              (conj Hraw (conj Hblock (conj Hlen Hwf))))))).
Qed.

End CapacityClaims.

(** ** The claims on concrete buffers *)

(** C1, on the spec's round-trip example.  Writing [[1; 2; 3]] into a new
    buffer of 5 slots reports 0 elements written and leaves the vector whole;
    the read that follows returns [[1; 1; 1; 1]], not [[1; 2; 3]]; after it
    [canRead()] is false. *)
Theorem round_trip_repeats_first_element :
  exists b0 b1 b2,
    CircularBuffer_new (T:=uint16) 5 ample_heap = Constructed b0 /\
    write 5 true (b0, map u16 [1; 2; 3]) = Returns 0 (b1, map u16 [1; 2; 3]) /\
    read 5 b1 = Returns (map u16 [1; 1; 1; 1]) b2 /\
    map u16 [1; 1; 1; 1] <> map u16 [1; 2; 3] /\
    canRead b2 = Returns false b2.
Proof.
  exists fresh5.
  exists (mkCircularBuffer 2 5 10
            (flat_map to_bytes (map u16 [1; 1; 1; 1; 0])) 0 8).
  exists (mkCircularBuffer 2 5 10
            (flat_map to_bytes (map u16 [1; 1; 1; 1; 0])) 8 8).
  split; [reflexivity |]. split; [vm_compute; reflexivity |].
  split; [vm_compute; reflexivity |]. split; [| reflexivity].
  vm_compute. discriminate.
Qed.

(** C2, on the spec's removal-flag example.  Writing [[1; 2; 3; 4; 5; 6]]
    into a new buffer of 4 slots with the removal flag set stores three
    copies of the first element, returns 0 and erases nothing from the
    vector. *)
Theorem removal_flag_erases_nothing :
  exists b0 b1,
    CircularBuffer_new (T:=uint16) 4 ample_heap = Constructed b0 /\
    write 4 true (b0, map u16 [1; 2; 3; 4; 5; 6])
    = Returns 0 (b1, map u16 [1; 2; 3; 4; 5; 6]) /\
    queued b1 = map u16 [1; 1; 1] /\
    canWrite b1 = Returns false b1.
Proof.
  exists fresh4.
  exists (mkCircularBuffer 2 4 8
            (flat_map to_bytes (map u16 [1; 1; 1; 0])) 0 6).
  split; [reflexivity |]. split; [vm_compute; reflexivity |].
  split; vm_compute; reflexivity.
Qed.


(** C6 as stated fails: in the buffer the constructor builds for
    [T = std::uint16_t] and [bufferSize = 2^63] the block is empty and
    [canWrite()] divides by zero instead of returning. *)
Lemma canWrite_divides_by_zero :
  CircularBuffer_new (T:=uint16) (2 ^ 63) ample_heap = Constructed zero_block /\
  _rawBufferSize zero_block = 0 /\
  canWrite zero_block = Undefined.
Proof. split; [reflexivity |]. split; reflexivity. Qed.

(** C7 as stated fails: the same buffer has its cursors at 0, which is not
    inside [[0, _rawBufferSize)], the block being empty. *)
Lemma cursor_range_fails_on_overflow :
  reachable (T:=uint16) (2 ^ 63) zero_block /\
  _readPtr zero_block = 0 /\ _rawBufferSize zero_block = 0 /\
  ~ (0 <= _readPtr zero_block < _rawBufferSize zero_block).
Proof.
  split; [exact zero_block_reachable |].
  split; [reflexivity |]. split; [reflexivity |].
  cbn. lia.
Qed.

(** C9 as stated fails: with [T = std::uint16_t] and [bufferSize = 2^63] the
    assertion passes and the constructor allocates a block of 0 bytes, not of
    [2 * 2^63]; and with [bufferSize = 2^62] on an allocator that has 2^32
    bytes left, the allocation of 2^63 bytes throws before the assertion is
    reached. *)
Lemma construction_overflow :
  (1 < 2 ^ 63 /\
   exists b,
     CircularBuffer_new (T:=uint16) (2 ^ 63) ample_heap = Constructed b /\
     Z.of_nat (length (_buffer b)) = 0 /\
     Z.of_nat (length (_buffer b)) <> sizeof (T:=uint16) * 2 ^ 63) /\
  (1 < 2 ^ 62 /\ sizeof (T:=uint16) * 2 ^ 62 < size_modulus /\
   CircularBuffer_new (T:=uint16) (2 ^ 62) ample_heap = BadAlloc).
Proof.
  split.
  - split; [reflexivity |].
    exists zero_block. split; [reflexivity |]. split; [reflexivity |].
    vm_compute. discriminate.
  - split; [reflexivity |]. split; reflexivity.
Qed.

(** *** Instances *)

Lemma read_empty_throws_witness :
  _readPtr fresh5 = _writePtr fresh5 /\
  read (T:=uint16) 3 fresh5 = Throws ErrorNothingToRead fresh5.
Proof.
  split; [reflexivity |].
  apply (read_empty_throws (T:=uint16) 3 fresh5). reflexivity.
Defined.

Lemma write_full_throws_witness :
  map u16 [1; 2] <> [] /\
  nextIndex full4 (_writePtr full4) = Some (_readPtr full4) /\
  write 3 true (full4, map u16 [1; 2])
  = Throws ErrorBufferBusy (full4, map u16 [1; 2]).
Proof.
  assert (H1 : map u16 [1; 2] <> []) by (simpl; discriminate).
  assert (H2 : nextIndex full4 (_writePtr full4) = Some (_readPtr full4))
    by reflexivity.
  exact (conj H1 (conj H2 (write_full_throws 3 true full4 _ H1 H2))).
Defined.

Lemma canRead_canWrite_spec_witness :
  (_rawBufferSize wrapped5 <> 0 /\ wf (T:=uint16) wrapped5 /\
   (exists v, canRead wrapped5 = Returns v wrapped5 /\
              (v = true <-> _readPtr wrapped5 <> _writePtr wrapped5)) /\
   (exists v next,
       nextIndex wrapped5 (_writePtr wrapped5) = Some next /\
       canWrite wrapped5 = Returns v wrapped5 /\
       (v = true <-> next <> _readPtr wrapped5)) /\
   nextIndex wrapped5 (_writePtr wrapped5)
   = Some (advance wrapped5 (_writePtr wrapped5))) /\
  (_rawBufferSize zero_block = 0 /\ canWrite zero_block = Undefined).
Proof.
  destruct (canRead_canWrite_spec (T:=uint16) wrapped5) as (Hr & Hw & _ & Ha).
  destruct (canRead_canWrite_spec (T:=uint16) zero_block) as (_ & _ & Hz & _).
  assert (H1 : _rawBufferSize wrapped5 <> 0) by (vm_compute; discriminate).
  assert (H2 : _rawBufferSize zero_block = 0) by reflexivity.
  exact (conj (conj H1 (conj wrapped5_wf (conj Hr (conj (Hw H1)
                 (Ha wrapped5_wf)))))
              (conj H2 (Hz H2))).
Defined.

Lemma calls_terminate_witness :
  wf (T:=uint16) wrapped5 /\ wf (T:=uint16) fresh5 /\
  resident wrapped5 <= Z.of_nat 4 /\
  terminated (read (T:=uint16) 4 wrapped5) = true /\
  free fresh5 <= Z.of_nat 4 /\
  terminated (write 4 true (fresh5, map u16 [1; 2; 3; 4; 5; 6])) = true.
Proof.
  destruct (calls_terminate (T:=uint16) wrapped5 wrapped5_wf)
    as [[_ Hr] _].
  destruct (calls_terminate (T:=uint16) fresh5 fresh5_wf)
    as [_ [_ Hw]].
  assert (H1 : resident wrapped5 <= Z.of_nat 4) by (vm_compute; discriminate).
  assert (H2 : free fresh5 <= Z.of_nat 4) by (vm_compute; discriminate).
  exact (conj wrapped5_wf (conj fresh5_wf
          (conj H1 (conj (Hr 4%nat H1) (conj H2 (Hw 4%nat true _ H2)))))).
Defined.

Lemma cursor_invariant_witness :
  sizeof (T:=uint16) * 5 < size_modulus /\
  reachable (T:=uint16) 5 wrapped5 /\
  ((sizeof (T:=uint16) | _readPtr wrapped5) /\
   0 <= _readPtr wrapped5 < _rawBufferSize wrapped5) /\
  ((sizeof (T:=uint16) | _writePtr wrapped5) /\
   0 <= _writePtr wrapped5 < _rawBufferSize wrapped5) /\
  (nextIndex wrapped5 (_readPtr wrapped5)
   = Some (advance wrapped5 (_readPtr wrapped5)) /\
   nextIndex wrapped5 (_writePtr wrapped5)
   = Some (advance wrapped5 (_writePtr wrapped5))).
Proof.
  assert (H1 : sizeof (T:=uint16) * 5 < size_modulus) by reflexivity.
  destruct (cursor_invariant (T:=uint16) 5 wrapped5 H1 wrapped5_reachable)
    as (_ & Hr & Hw & _ & Ha & _).
  exact (conj H1 (conj wrapped5_reachable (conj Hr (conj Hw Ha)))).
Defined.

Lemma construction_spec_witness :
  (new_bytes (wrap (sizeof (T:=uint16) * 5)) tight_heap = None /\
   CircularBuffer_new (T:=uint16) 5 tight_heap = BadAlloc) /\
  (new_bytes (wrap (sizeof (T:=uint16) * 0)) ample_heap = Some [] /\ 0 <= 1 /\
   CircularBuffer_new (T:=uint16) 0 ample_heap = AssertionFailed) /\
  (new_bytes (wrap (sizeof (T:=uint16) * 5)) ample_heap
   = Some (repeat x00 10) /\
   1 < 5 /\ sizeof (T:=uint16) * 5 < size_modulus /\
   exists b,
     CircularBuffer_new (T:=uint16) 5 ample_heap = Constructed b /\
     _readPtr b = 0 /\ _writePtr b = 0 /\
     _bufferSize b = 5 /\ _packetSize b = sizeof (T:=uint16) /\
     _rawBufferSize b = sizeof (T:=uint16) * 5 /\
     _buffer b = repeat x00 10 /\
     Z.of_nat (length (_buffer b)) = sizeof (T:=uint16) * 5 /\
     wf (T:=uint16) b).
Proof.
  destruct (construction_spec (T:=uint16) 5 tight_heap) as [Hbad _].
  destruct (construction_spec (T:=uint16) 0 ample_heap) as [_ Hzero].
  destruct (construction_spec (T:=uint16) 5 ample_heap) as [_ Hfive].
  assert (A1 : new_bytes (wrap (sizeof (T:=uint16) * 5)) tight_heap = None)
    by reflexivity.
  assert (A2 : new_bytes (wrap (sizeof (T:=uint16) * 0)) ample_heap = Some [])
    by reflexivity.
  assert (A3 : new_bytes (wrap (sizeof (T:=uint16) * 5)) ample_heap
               = Some (repeat x00 10)) by reflexivity.
  assert (H0 : 0 <= 1) by (vm_compute; discriminate).
  assert (H1 : 1 < 5) by reflexivity.
  assert (H2 : sizeof (T:=uint16) * 5 < size_modulus) by reflexivity.
  exact (conj (conj A1 (Hbad A1))
          (conj (conj A2 (conj H0 (proj1 (Hzero _ A2) H0)))
                (conj A3 (conj H1 (conj H2 (proj2 (Hfive _ A3) H1 H2)))))).
Defined.

(** ** What the calls leave alone, in every buffer state *)

Section Frames.

Context {T : Type} `{PT : Packet T}.

(** The loop of [read] only ever assigns [_readPtr], appends to [values]
    and stops with the two cursors equal. *)
Lemma read_loop_frame (fuel : nat) :
  forall (values vs : list T) (b b' : CircularBuffer),
    read_loop fuel values b = Returns vs b' ->
    _readPtr b' = _writePtr b' /\ b' = set_readPtr (_readPtr b') b /\
    exists more, vs = values ++ more.
Proof.
  induction fuel as [| fuel IH]; intros values vs b b';
    cbn [read_loop]; destruct (Z.eqb_spec (_readPtr b) (_writePtr b)) as [E | N];
    cbn [negb]; intros H; try discriminate.
  - injection H as <- <-. split; [exact E |].
    split; [now destruct b | exists []; now rewrite app_nil_r].
  - injection H as <- <-. split; [exact E |].
    split; [now destruct b | exists []; now rewrite app_nil_r].
  - destruct (memcpy_load (_buffer b) (_readPtr b) (_packetSize b))
      as [bytes |]; [| discriminate].
    destruct (nextIndex b (_readPtr b)) as [next |]; [| discriminate].
    destruct (IH _ _ _ _ H) as (Heq & Hb' & more & Hvs).
    split; [exact Heq |]. split; [rewrite Hb' at 1; reflexivity |].
    exists (of_bytes bytes :: more). now rewrite Hvs, <- app_assoc.
Qed.

Lemma read_loop_no_throw (fuel : nat) :
  forall (values : list T) (b b' : CircularBuffer) (e : Error),
    read_loop fuel values b <> Throws e b'.
Proof.
  induction fuel as [| fuel IH]; intros values b b' e;
    cbn [read_loop]; destruct (negb (_readPtr b =? _writePtr b));
    try discriminate.
  destruct (memcpy_load (_buffer b) (_readPtr b) (_packetSize b));
    [| discriminate].
  destruct (nextIndex b (_readPtr b)); [apply IH | discriminate].
Qed.

Lemma memcpy_store_length (block src block' : list byte) (off n : Z) :
  memcpy_store block off src n = Some block' ->
  length block' = length block.
Proof.
  unfold memcpy_store.
  destruct ((0 <=? off) && (0 <=? n)
            && (off + n <=? Z.of_nat (length block))
            && (n <=? Z.of_nat (length src))) eqn:C; [| discriminate].
  rewrite !andb_true_iff, !Z.leb_le in C.
  destruct C as [[[H0 Hn] Hin] Hsrc].
  intros H. injection H as <-.
  rewrite !length_app, !length_firstn, length_skipn. lia.
Qed.

(** The loop of [write] returns the [packetIndex] it was given, assigns only
    [_buffer] and [_writePtr], keeps the block's length, and with an index
    inside the vector it can only stop on a full buffer. *)
Lemma write_loop_frame (packets : list T) (packetIndex : Z) (fuel : nat) :
  forall (k : Z) (b b' : CircularBuffer),
    write_loop fuel packets packetIndex b = Returns k b' ->
    k = packetIndex /\
    _readPtr b' = _readPtr b /\
    (_packetSize b' = _packetSize b /\ _bufferSize b' = _bufferSize b /\
     _rawBufferSize b' = _rawBufferSize b) /\
    length (_buffer b') = length (_buffer b) /\
    (packetIndex < Z.of_nat (length packets) ->
     nextIndex b' (_writePtr b') = Some (_readPtr b')).
Proof.
  assert (Hstop : forall (k : Z) (b b' : CircularBuffer) (next : Z),
             nextIndex b (_writePtr b) = Some next ->
             negb (_readPtr b =? next)
             && (packetIndex <? Z.of_nat (length packets)) = false ->
             Returns (S:=CircularBuffer) packetIndex b = Returns k b' ->
             k = packetIndex /\
             _readPtr b' = _readPtr b /\
             (_packetSize b' = _packetSize b /\
              _bufferSize b' = _bufferSize b /\
              _rawBufferSize b' = _rawBufferSize b) /\
             length (_buffer b') = length (_buffer b) /\
             (packetIndex < Z.of_nat (length packets) ->
              nextIndex b' (_writePtr b') = Some (_readPtr b'))).
  { intros k b b' next Hnext Hcond H. injection H as <- <-.
    refine (conj eq_refl (conj eq_refl (conj _ (conj eq_refl _)))); [auto |].
    intros Hlt. apply Z.ltb_lt in Hlt. rewrite Hlt, andb_true_r in Hcond.
    apply negb_false_iff, Z.eqb_eq in Hcond. now rewrite Hnext, Hcond. }
  induction fuel as [| fuel IH]; intros k b b'; cbn [write_loop];
    destruct (nextIndex b (_writePtr b)) as [next |] eqn:Hnext;
    try discriminate;
    destruct (negb (_readPtr b =? next)
              && (packetIndex <? Z.of_nat (length packets))) eqn:Hcond;
    try discriminate; try (now apply (Hstop k b b' next)).
  destruct (nth_error packets (Z.to_nat packetIndex)) as [p |];
    [| discriminate].
  destruct (memcpy_store (_buffer b) (_writePtr b) (to_bytes p)
                         (_packetSize b)) as [buffer' |] eqn:Hst;
    [| discriminate].
  destruct (nextIndex (set_buffer buffer' b)
                      (_writePtr (set_buffer buffer' b))) as [next' |];
    [| discriminate].
  intros H.
  destruct (IH _ _ _ H) as (Hk & Hr & (G1 & G2 & G3) & Hlen & Hfull).
  cbn [set_writePtr set_buffer _readPtr _packetSize _bufferSize
       _rawBufferSize _buffer] in Hr, G1, G2, G3, Hlen.
  rewrite (memcpy_store_length _ _ _ _ _ Hst) in Hlen.
  repeat split; assumption.
Qed.

Lemma write_loop_no_throw (packets : list T) (packetIndex : Z) (fuel : nat) :
  forall (b b' : CircularBuffer) (e : Error),
    write_loop fuel packets packetIndex b <> Throws e b'.
Proof.
  induction fuel as [| fuel IH]; intros b b' e; cbn [write_loop];
    destruct (nextIndex b (_writePtr b)) as [next |]; try discriminate;
    destruct (negb (_readPtr b =? next)
              && (packetIndex <? Z.of_nat (length packets)));
    try discriminate.
  destruct (nth_error packets (Z.to_nat packetIndex)) as [p |];
    [| discriminate].
  destruct (memcpy_store (_buffer b) (_writePtr b) (to_bytes p)
                         (_packetSize b)) as [buffer' |]; [| discriminate].
  destruct (nextIndex (set_buffer buffer' b)
                      (_writePtr (set_buffer buffer' b)));
    [apply IH | discriminate].
Qed.

End Frames.

(** ** Further properties of [read] and [write] *)

Section CallProperties.

Context {T : Type} `{PT : Packet T}.

(** X2.  A [read] that returns, in whatever state it was called, returns at
    least one element and leaves the buffer empty: [canRead()] is false and a
    second [read] throws [ErrorNothingToRead]. *)
Theorem read_drains (fuel : nat) (b b' : CircularBuffer) (values : list T) :
  read fuel b = Returns values b' ->
  values <> [] /\
  canRead b' = Returns false b' /\
  forall fuel', read fuel' b' = Throws ErrorNothingToRead b'.
Proof.
  unfold read, canReadNotThreadSafe.
  destruct (Z.eqb_spec (_readPtr b) (_writePtr b)) as [E | N];
    cbn [negb Bool.eqb]; [discriminate |].
  intros H.
  destruct (read_loop_frame fuel [] values b b' H) as (Heq & _ & _).
  assert (Hne : values <> []).
  { destruct fuel as [| fuel]; cbn [read_loop] in H;
      destruct (Z.eqb_spec (_readPtr b) (_writePtr b)); try contradiction;
      cbn [negb] in H; [discriminate |].
    destruct (memcpy_load (_buffer b) (_readPtr b) (_packetSize b))
      as [bytes |]; [| discriminate].
    destruct (nextIndex b (_readPtr b)) as [next |]; [| discriminate].
    destruct (read_loop_frame _ _ _ _ _ H) as (_ & _ & more & ->).
    cbn. discriminate. }
  split; [exact Hne |].
  unfold canRead, canReadNotThreadSafe. rewrite Heq, Z.eqb_refl.
  split; reflexivity.
Qed.

(** X3.  However a [read] ends, it has written nothing into the block and
    has moved nothing but the read cursor. *)
Theorem read_frame (fuel : nat) (b b' : CircularBuffer) :
  state_after (read fuel b) = Some b' ->
  _buffer b' = _buffer b /\ _writePtr b' = _writePtr b /\
  _packetSize b' = _packetSize b /\ _bufferSize b' = _bufferSize b /\
  _rawBufferSize b' = _rawBufferSize b.
Proof.
  unfold read.
  destruct (Bool.eqb (canReadNotThreadSafe b) false).
  - cbn. intros H. injection H as <-. auto.
  - destruct (read_loop fuel [] b) as [vs s | e s | |] eqn:Hl;
      cbn; intros H; try discriminate.
    + injection H as ->.
      destruct (read_loop_frame _ _ _ _ _ Hl) as (_ & -> & _).
      cbn. auto.
    + exfalso. exact (read_loop_no_throw _ _ _ _ _ Hl).
Qed.

(** X5.  [write] never changes the caller's vector, whatever the removal
    flag, and whenever it returns it returns 0; it leaves the read cursor,
    the sizes and the length of the block as they were.  The flag has no
    effect at all. *)
Theorem write_keeps_vector (fuel : nat) (rm : bool) (b : CircularBuffer)
        (packets : list T) :
  write fuel true (b, packets) = write fuel false (b, packets) /\
  (forall b' packets',
      state_after (write fuel rm (b, packets)) = Some (b', packets') ->
      packets' = packets /\ _readPtr b' = _readPtr b /\
      _packetSize b' = _packetSize b /\ _bufferSize b' = _bufferSize b /\
      _rawBufferSize b' = _rawBufferSize b /\
      length (_buffer b') = length (_buffer b)) /\
  (forall n b' packets',
      write fuel rm (b, packets) = Returns n (b', packets') -> n = 0).
Proof.
  destruct packets as [| p ps].
  { cbn. split; [reflexivity |]. split.
    - intros b' packets' H. injection H as <- <-. auto 10.
    - intros n b' packets' H. now injection H as <- _ _. }
  unfold write.
  destruct (canWriteNotThreadSafe b) as [can |].
  2:{ split; [reflexivity |]. split; intros; discriminate. }
  destruct (Bool.eqb can false).
  { cbn. split; [reflexivity |]. split.
    - intros b' packets' H. injection H as <- <-. auto 10.
    - intros n b' packets' H. discriminate. }
  destruct (write_loop fuel (p :: ps) 0 b) as [k s | e s | |] eqn:Hl.
  - destruct (write_loop_frame _ _ _ _ _ _ Hl)
      as (-> & Hr & (G1 & G2 & G3) & Hlen & _).
    change (erase_prefix (p :: ps) 0) with (p :: ps).
    split; [reflexivity |]. split.
    + intros b' packets' H. cbn in H.
      assert (E : (s, p :: ps) = (b', packets')) by (destruct rm; congruence).
      injection E as <- <-. auto 10.
    + intros n b' packets' H. injection H as <- _ _. reflexivity.
  - exfalso. exact (write_loop_no_throw _ _ _ _ _ _ Hl).
  - split; [reflexivity |]. split; intros; discriminate.
  - split; [reflexivity |]. split; intros; discriminate.
Qed.

(** X6.  A [write] of a non-empty vector that returns, in whatever state it
    was called, leaves the buffer full: [canWrite()] is false and the next
    [write] of a non-empty vector throws [ErrorBufferBusy]. *)
Theorem write_leaves_full (fuel : nat) (rm : bool) (b b' : CircularBuffer)
        (p : T) (ps packets' : list T) (n : Z) :
  write fuel rm (b, p :: ps) = Returns n (b', packets') ->
  canWrite b' = Returns false b' /\
  forall fuel' rm' (q : T) (qs : list T),
    write fuel' rm' (b', q :: qs) = Throws ErrorBufferBusy (b', q :: qs).
Proof.
  unfold write at 1.
  destruct (canWriteNotThreadSafe b) as [can |]; [| discriminate].
  destruct (Bool.eqb can false); [discriminate |].
  destruct (write_loop fuel (p :: ps) 0 b) as [k s | e s | |] eqn:Hl;
    intros H; try discriminate.
  injection H as _ <- _.
  destruct (write_loop_frame _ _ _ _ _ _ Hl) as (_ & _ & _ & _ & Hfull).
  assert (E : nextIndex s (_writePtr s) = Some (_readPtr s))
    by (apply Hfull; cbn [length]; lia).
  assert (C : canWriteNotThreadSafe s = Some false).
  { unfold canWriteNotThreadSafe. now rewrite E, Z.eqb_refl. }
  split.
  - unfold canWrite. now rewrite C.
  - intros fuel' rm' q qs. unfold write. now rewrite C.
Qed.

(** X8.  The two queries tell which call would throw, in every buffer
    state: [read] throws only when [canRead] is false, [write] of a non-empty
    vector only when [canWrite] is false; each throws its own error and
    nothing else, and has changed nothing when it does. *)
Theorem queries_predict_errors (b : CircularBuffer) :
  (forall fuel e b',
      read (T:=T) fuel b = Throws e b' <->
      canReadNotThreadSafe b = false /\ e = ErrorNothingToRead /\ b' = b) /\
  (forall fuel rm (p : T) (ps : list T) e st',
      write fuel rm (b, p :: ps) = Throws e st' <->
      canWriteNotThreadSafe b = Some false /\ e = ErrorBufferBusy /\
      st' = (b, p :: ps)).
Proof.
  split.
  - intros fuel e b'. unfold read.
    destruct (canReadNotThreadSafe b); cbn [Bool.eqb]; split.
    + intros H. exfalso. exact (read_loop_no_throw _ _ _ _ _ H).
    + intros (H & _). discriminate.
    + intros H. injection H as <- <-. auto.
    + intros (_ & -> & ->). reflexivity.
  - intros fuel rm p ps e st'. unfold write.
    destruct (canWriteNotThreadSafe b) as [[|] |]; cbn [Bool.eqb]; split.
    + destruct (write_loop fuel (p :: ps) 0 b) as [k s | e0 s | |] eqn:Hl;
        intros H; try discriminate.
      exfalso. exact (write_loop_no_throw _ _ _ _ _ _ Hl).
    + intros (H & _). discriminate.
    + intros H. injection H as <- <-. auto.
    + intros (_ & -> & ->). reflexivity.
    + intros H. discriminate.
    + intros (H & _). discriminate.
Qed.

End CallProperties.

(** ** Further properties on well-formed buffers *)

Section InvariantProperties.

Context {T : Type} `{PT : Packet T}.

Lemma iter_advance_slot (b : CircularBuffer) (i : Z) (n : nat) :
  wf b -> 0 <= i < _bufferSize b ->
  Nat.iter n (advance b) (i * _packetSize b)
  = (i + Z.of_nat n) mod _bufferSize b * _packetSize b.
Proof.
  intros Hwf Hi. destruct (wf_slots b Hwf) as (_ & Hc & _).
  induction n as [| n IH].
  - cbn [Nat.iter]. rewrite Z.add_0_r, Z.mod_small by lia. reflexivity.
  - rewrite Nat.iter_succ, IH.
    rewrite (advance_slot b _ Hwf) by (apply Z.mod_pos_bound; lia).
    rewrite Zplus_mod_idemp_l. do 2 f_equal. lia.
Qed.

Lemma queued_empty (b : CircularBuffer) : resident b = 0 -> queued b = [].
Proof. intros H. unfold queued. now rewrite H. Qed.

(** X10.  [nextIndex] on a cursor of a well-formed buffer steps to the next
    slot, from the last slot back to offset 0; it never gives the cursor
    back, and its iterates come back to the cursor after exactly
    [_bufferSize] steps. *)
Theorem nextIndex_cycle (b : CircularBuffer) (index : Z) :
  wf b -> (_packetSize b | index) -> 0 <= index < _rawBufferSize b ->
  nextIndex b index
  = Some (if index + _packetSize b =? _rawBufferSize b
          then 0 else index + _packetSize b) /\
  nextIndex b index <> Some index /\
  iter_nextIndex b (Z.to_nat (_bufferSize b)) index = Some index /\
  forall n, (0 < n)%nat -> Z.of_nat n < _bufferSize b ->
            exists i, iter_nextIndex b n index = Some i /\ i <> index.
Proof.
  intros Hwf Ha Hi.
  assert (Hiter : forall n,
             iter_nextIndex b n index = Some (Nat.iter n (advance b) index))
    by (intros n; now apply iter_advance_cursor).
  destruct (wf_slots b Hwf) as (Hsz & Hc & _ & Hraw & _).
  rewrite Hraw in Hi |- *.
  destruct (aligned_slot _ _ _ Hsz Ha Hi) as [E Hs].
  set (i := index / _packetSize b) in *.
  assert (Hstep : forall n,
             Nat.iter n (advance b) index
             = (i + Z.of_nat n) mod _bufferSize b * _packetSize b)
    by (intros n; rewrite E; now apply iter_advance_slot).
  assert (Hinj : forall k, k * _packetSize b = index -> k = i)
    by (intros k Hk; rewrite E in Hk; apply Z.mul_cancel_r in Hk; lia).
  assert (Hnext : nextIndex b index
                  = Some ((i + 1) mod _bufferSize b * _packetSize b))
    by (rewrite E; now apply nextIndex_slot).
  rewrite Hnext.
  refine (conj _ (conj _ (conj _ _))).
  - f_equal. rewrite E.
    destruct (succ_mod_cases _ _ Hc Hs) as [[L Em] | [L Em]]; rewrite Em.
    + destruct (Z.eqb_spec (i * _packetSize b + _packetSize b)
                           (_packetSize b * _bufferSize b)); [nia | ring].
    + destruct (Z.eqb_spec (i * _packetSize b + _packetSize b)
                           (_packetSize b * _bufferSize b)); [ring | nia].
  - intros H. injection H as H. apply Hinj in H.
    destruct (succ_mod_cases _ _ Hc Hs) as [[L Em] | [L Em]]; lia.
  - rewrite Hiter, Hstep, Z2Nat.id by lia. f_equal.
    rewrite <- (Z.mul_1_l (_bufferSize b)) at 1.
    rewrite Z.mod_add, Z.mod_small by lia. symmetry. exact E.
  - intros n Hpos Hlt. eexists. split; [apply Hiter |].
    rewrite Hstep. intros H. apply Hinj in H.
    destruct (Z_lt_ge_dec (i + Z.of_nat n) (_bufferSize b)) as [S1 | S1].
    + rewrite Z.mod_small in H by lia. lia.
    + rewrite <- (Z.mod_add _ (-1) _), Z.mod_small in H by lia. lia.
Qed.

(** X1.  On a well-formed buffer that is not empty, [read] returns the
    elements held in the slots from the read cursor up to the write cursor,
    wrapping at the end of the block, oldest first; there are [resident b] of
    them and the loop body runs exactly that many times.  The buffer is then
    empty. *)
Theorem read_returns_queued (b : CircularBuffer) :
  wf b -> _readPtr b <> _writePtr b ->
  1 <= resident b /\ Z.of_nat (length (queued b)) = resident b /\
  (forall fuel, resident b <= Z.of_nat fuel ->
                read fuel b
                = Returns (queued b) (set_readPtr (_writePtr b) b)) /\
  (forall fuel, Z.of_nat fuel < resident b -> read fuel b = OutOfFuel) /\
  resident (set_readPtr (_writePtr b) b) = 0.
Proof.
  intros Hwf N.
  destruct (resident_advance_read b Hwf N) as [_ Hpos].
  apply Z.eqb_neq in N.
  refine (conj Hpos (conj (queued_length b Hwf) (conj _ (conj _ _)))).
  - intros fuel Hf. rewrite (read_exact fuel b Hwf), N.
    destruct (Z.leb_spec (resident b) (Z.of_nat fuel)); [reflexivity | lia].
  - intros fuel Hf. rewrite (read_exact fuel b Hwf), N.
    destruct (Z.leb_spec (resident b) (Z.of_nat fuel)); [lia | reflexivity].
  - apply (resident_zero_iff _ (wf_set_readPtr_writePtr b Hwf)). reflexivity.
Qed.

(** X4.  On a well-formed buffer with room, [write] of a non-empty vector
    copies the vector's first element into every free slot, behind the
    elements already waiting, and returns 0; the loop body runs exactly
    [free b] times whatever the length of the vector. *)
Theorem write_stores_copies_of_first (rm : bool) (b : CircularBuffer)
        (p : T) (ps : list T) :
  wf b -> canWriteNotThreadSafe b = Some true ->
  1 <= free b /\
  (forall fuel, free b <= Z.of_nat fuel ->
     exists b',
       write fuel rm (b, p :: ps) = Returns 0 (b', p :: ps) /\
       wf b' /\ resident b' = _bufferSize b - 1 /\
       queued b' = queued b ++ repeat p (Z.to_nat (free b))) /\
  (forall fuel, Z.of_nat fuel < free b ->
                write fuel rm (b, p :: ps) = OutOfFuel).
Proof.
  intros Hwf Hcan.
  pose proof (proj1 (proj1 (canWrite_iff_free b Hwf)) Hcan) as Hpos.
  pose proof (canWrite_true_advance b Hwf Hcan) as Hroom.
  split; [lia | split].
  - intros fuel Hf. rewrite (write_exact fuel rm b p ps Hwf), Hroom.
    destruct (Z.leb_spec (free b) (Z.of_nat fuel)); [| lia].
    destruct (fill_spec p (Z.to_nat (free b)) b Hwf ltac:(lia))
      as (Hwf' & (_ & G & _) & _ & Hfree & Hq & _).
    eexists. split; [reflexivity |].
    refine (conj Hwf' (conj _ Hq)). unfold free in *. lia.
  - intros fuel Hf. rewrite (write_exact fuel rm b p ps Hwf), Hroom.
    destruct (Z.leb_spec (free b) (Z.of_nat fuel)); [lia | reflexivity].
Qed.

(** X7.  A [write] into a well-formed buffer with room followed by a
    [read]: the [read] returns what was waiting before the [write], then as
    many copies of the vector's first element as there was room, and empties
    the buffer. *)
Theorem write_read_round_trip (rm : bool) (b : CircularBuffer)
        (p : T) (ps : list T) (fuel1 fuel2 : nat) :
  wf b -> canWriteNotThreadSafe b = Some true ->
  free b <= Z.of_nat fuel1 -> _bufferSize b - 1 <= Z.of_nat fuel2 ->
  exists b' b'',
    write fuel1 rm (b, p :: ps) = Returns 0 (b', p :: ps) /\
    read fuel2 b'
    = Returns (queued b ++ repeat p (Z.to_nat (free b))) b'' /\
    wf b'' /\ resident b'' = 0 /\ _buffer b'' = _buffer b'.
Proof.
  intros Hwf Hcan Hf1 Hf2.
  pose proof (proj1 (proj1 (canWrite_iff_free b Hwf)) Hcan) as Hpos.
  rewrite (write_exact fuel1 rm b p ps Hwf).
  rewrite (canWrite_true_advance b Hwf Hcan).
  destruct (Z.leb_spec (free b) (Z.of_nat fuel1)); [| lia].
  destruct (fill_spec p (Z.to_nat (free b)) b Hwf ltac:(lia))
    as (Hwf' & (_ & G & _) & _ & Hfree & Hq & _).
  set (b' := fill p (Z.to_nat (free b)) b) in *.
  assert (Hres : resident b' = _bufferSize b - 1)
    by (unfold free in *; lia).
  pose proof (wf_bufferSize b Hwf) as Hc.
  exists b', (set_readPtr (_writePtr b') b').
  split; [reflexivity |].
  rewrite (read_exact fuel2 b' Hwf').
  destruct (Z.eqb_spec (_readPtr b') (_writePtr b')) as [E | N].
  { apply (resident_zero_iff b' Hwf') in E. lia. }
  destruct (Z.leb_spec (resident b') (Z.of_nat fuel2)); [| lia].
  rewrite Hq. split; [reflexivity |].
  pose proof (wf_set_readPtr_writePtr b' Hwf') as Hwf''.
  refine (conj Hwf'' (conj _ eq_refl)).
  apply (resident_zero_iff _ Hwf''). reflexivity.
Qed.

(** X9.  A well-formed buffer is never empty and full at once: with enough
    fuel, [read] returns or [write] of a non-empty vector returns. *)
Theorem never_stuck (rm : bool) (b : CircularBuffer) (p : T) (ps : list T)
        (fuel : nat) :
  wf b -> _bufferSize b - 1 <= Z.of_nat fuel ->
  (canReadNotThreadSafe b = true \/ canWriteNotThreadSafe b = Some true) /\
  ((exists values b', read fuel b = Returns values b') \/
   (exists b', write fuel rm (b, p :: ps) = Returns 0 (b', p :: ps))).
Proof.
  intros Hwf Hf.
  pose proof (resident_range b Hwf) as Hr.
  pose proof (free_range b Hwf) as Hfr.
  pose proof (wf_bufferSize b Hwf) as Hc.
  destruct (Z.eqb_spec (_readPtr b) (_writePtr b)) as [E | N].
  - assert (Hz : resident b = 0) by now apply (resident_zero_iff b Hwf).
    assert (Hcan : canWriteNotThreadSafe b = Some true)
      by (apply (canWrite_iff_free b Hwf); unfold free; lia).
    split; [now right |]. right.
    rewrite (write_exact fuel rm b p ps Hwf).
    rewrite (canWrite_true_advance b Hwf Hcan).
    destruct (Z.leb_spec (free b) (Z.of_nat fuel)); [| lia].
    eexists. reflexivity.
  - split; [left; unfold canReadNotThreadSafe; now apply negb_true_iff, Z.eqb_neq |].
    left. rewrite (read_exact fuel b Hwf).
    apply Z.eqb_neq in N. rewrite N.
    destruct (Z.leb_spec (resident b) (Z.of_nat fuel)); [| lia].
    eexists. eexists. reflexivity.
Qed.

End InvariantProperties.

(** ** Whole sessions *)

Section Sessions.

Context {T : Type} `{PT : Packet T}.

(** X11.  Whenever construction completes (the allocation succeeded and the
    assertion passed), [bufferSize > 1] and the block never has more than
    [sizeof(T) * bufferSize] bytes; it has room for [bufferSize] elements
    exactly when that product fits [std::size_t], and is strictly smaller
    otherwise. *)
Theorem new_block_fits_iff (bufferSize : Z) (h : Heap) (b : CircularBuffer) :
  CircularBuffer_new bufferSize h = Constructed b ->
  1 < bufferSize /\
  Z.of_nat (length (_buffer b)) <= sizeof * bufferSize /\
  (Z.of_nat (length (_buffer b)) = sizeof * bufferSize
   <-> sizeof * bufferSize < size_modulus) /\
  (wf b <-> sizeof * bufferSize < size_modulus).
Proof.
  intros Hnew.
  destruct (new_constructed bufferSize h b Hnew)
    as (Hc & _ & _ & _ & Hbs & Hps & Hraw & Hlen).
  pose proof sizeof_range as Hsz.
  assert (Hpos : 0 <= sizeof * bufferSize) by nia.
  assert (Hm : 0 < size_modulus) by reflexivity.
  pose proof (Z.mod_pos_bound (sizeof * bufferSize) size_modulus Hm) as Hb.
  pose proof (Z.mod_le (sizeof * bufferSize) size_modulus Hpos Hm) as Hle.
  fold (wrap (sizeof * bufferSize)) in Hb, Hle.
  split; [exact Hc |]. rewrite Hlen.
  split; [exact Hle |]. split; split; intros H.
  - lia.
  - apply wrap_small. lia.
  - pose proof (wf_rawBufferSize b H) as R. pose proof (wf_fits b H) as F.
    rewrite Hps, Hbs in R. lia.
  - now apply (new_wf bufferSize h b H Hnew).
Qed.

(** X12.  A buffer is, between calls, either empty or full of copies of a
    single element: it never holds two different elements and is never
    partly filled. *)
Theorem reachable_empty_or_full (c : Z) (b : CircularBuffer) :
  sizeof * c < size_modulus -> reachable c b ->
  (resident b = 0 /\ queued b = []) \/
  (resident b = c - 1 /\ exists p, queued b = repeat p (Z.to_nat (c - 1))).
Proof.
  intros Hfit Hreach.
  induction Hreach as [h b Hnew | b b' Hreach IH Hstep].
  - destruct (new_wf c h b Hfit Hnew) as (Hwf & _ & R0 & W0).
    assert (Hz : resident b = 0)
      by (apply (resident_zero_iff b Hwf); congruence).
    left. split; [exact Hz | now apply queued_empty].
  - destruct (reachable_wf c b Hfit Hreach) as [Hwf Hc].
    destruct Hstep as [fuel b b' H | fuel rm packets packets' b b' H
                       | b b' H | b b' H].
    + rewrite (read_exact fuel b Hwf) in H.
      destruct (_readPtr b =? _writePtr b); cbn in H.
      * injection H as <-. exact IH.
      * destruct (resident b <=? Z.of_nat fuel); cbn in H; [| discriminate].
        injection H as <-.
        assert (Hz : resident (set_readPtr (_writePtr b) b) = 0).
        { apply (resident_zero_iff _ (wf_set_readPtr_writePtr b Hwf)).
          reflexivity. }
        left. split; [exact Hz | now apply queued_empty].
    + destruct packets as [| p ps].
      { cbn in H. injection H as <- _. exact IH. }
      rewrite (write_exact fuel rm b p ps Hwf) in H.
      destruct (Z.eqb_spec (advance b (_writePtr b)) (_readPtr b))
        as [E | N]; cbn in H.
      { injection H as <- _. exact IH. }
      destruct (Z.leb_spec (free b) (Z.of_nat fuel)); cbn in H;
        [| discriminate].
      injection H as <- _.
      pose proof (free_range b Hwf) as Hfr.
      destruct (fill_spec p (Z.to_nat (free b)) b Hwf ltac:(lia))
        as (Hwf' & (_ & G & _) & _ & Hfree & Hq & _).
      assert (Hnz : free b <> 0).
      { intros Z0. apply (free_zero_iff b Hwf) in Z0. contradiction. }
      assert (Hz : resident b = 0).
      { destruct IH as [[Hz _] | [Hfull _]]; [exact Hz |].
        unfold free in Hnz. lia. }
      right. split; [unfold free in *; lia |].
      exists p. rewrite Hq, (queued_empty b Hz). cbn [app].
      f_equal. unfold free. lia.
    + cbn in H. injection H as <-. exact IH.
    + unfold canWrite in H. rewrite (canWrite_defined b Hwf) in H.
      cbn in H. injection H as <-. exact IH.
Qed.

End Sessions.

(** *** Instances of the further properties *)

Lemma read_drains_witness :
  read (T:=uint16) 4 wrapped5
  = Returns (map u16 [4; 4; 4; 4]) (set_readPtr 6 wrapped5) /\
  map u16 [4; 4; 4; 4] <> [] /\
  canRead (set_readPtr 6 wrapped5) = Returns false (set_readPtr 6 wrapped5) /\
  forall fuel',
    read (T:=uint16) fuel' (set_readPtr 6 wrapped5)
    = Throws ErrorNothingToRead (set_readPtr 6 wrapped5).
Proof.
  assert (H : read (T:=uint16) 4 wrapped5
              = Returns (map u16 [4; 4; 4; 4]) (set_readPtr 6 wrapped5))
    by (vm_compute; reflexivity).
  exact (conj H (read_drains 4 wrapped5 _ _ H)).
Defined.

Lemma read_frame_witness :
  state_after (read (T:=uint16) 4 wrapped5) = Some (set_readPtr 6 wrapped5) /\
  _buffer (set_readPtr 6 wrapped5) = _buffer wrapped5 /\
  _writePtr (set_readPtr 6 wrapped5) = _writePtr wrapped5 /\
  _packetSize (set_readPtr 6 wrapped5) = _packetSize wrapped5 /\
  _bufferSize (set_readPtr 6 wrapped5) = _bufferSize wrapped5 /\
  _rawBufferSize (set_readPtr 6 wrapped5) = _rawBufferSize wrapped5.
Proof.
  assert (H : state_after (read (T:=uint16) 4 wrapped5)
              = Some (set_readPtr 6 wrapped5))
    by (vm_compute; reflexivity).
  exact (conj H (read_frame (T:=uint16) 4 wrapped5 _ H)).
Defined.

Lemma write_keeps_vector_witness :
  state_after (write 3 true (fresh4, map u16 [7; 8; 9]))
  = Some (full4, map u16 [7; 8; 9]) /\
  write 3 true (fresh4, map u16 [7; 8; 9])
  = Returns 0 (full4, map u16 [7; 8; 9]) /\
  write 3 true (fresh4, map u16 [7; 8; 9])
  = write 3 false (fresh4, map u16 [7; 8; 9]) /\
  _readPtr full4 = _readPtr fresh4 /\
  length (_buffer full4) = length (_buffer fresh4).
Proof.
  assert (H1 : state_after (write 3 true (fresh4, map u16 [7; 8; 9]))
               = Some (full4, map u16 [7; 8; 9]))
    by (vm_compute; reflexivity).
  assert (H2 : write 3 true (fresh4, map u16 [7; 8; 9])
               = Returns 0 (full4, map u16 [7; 8; 9]))
    by (vm_compute; reflexivity).
  destruct (write_keeps_vector 3 true fresh4 (map u16 [7; 8; 9]))
    as (Hflag & Hframe & _).
  destruct (Hframe _ _ H1) as (_ & Hr & _ & _ & _ & Hlen).
  exact (conj H1 (conj H2 (conj Hflag (conj Hr Hlen)))).
Defined.

Lemma write_leaves_full_witness :
  write 3 true (fresh4, u16 7 :: map u16 [8; 9])
  = Returns 0 (full4, map u16 [7; 8; 9]) /\
  canWrite full4 = Returns false full4 /\
  forall fuel' rm' (q : uint16) (qs : list uint16),
    write fuel' rm' (full4, q :: qs) = Throws ErrorBufferBusy (full4, q :: qs).
Proof.
  assert (H : write 3 true (fresh4, u16 7 :: map u16 [8; 9])
              = Returns 0 (full4, map u16 [7; 8; 9]))
    by (vm_compute; reflexivity).
  exact (conj H (write_leaves_full 3 true fresh4 full4 _ _ _ _ H)).
Defined.

Lemma nextIndex_cycle_witness :
  wf (T:=uint16) wrapped5 /\ (_packetSize wrapped5 | 8) /\
  0 <= 8 < _rawBufferSize wrapped5 /\
  nextIndex wrapped5 8 = Some 0 /\
  nextIndex wrapped5 8 <> Some 8 /\
  iter_nextIndex wrapped5 (Z.to_nat (_bufferSize wrapped5)) 8 = Some 8 /\
  forall n, (0 < n)%nat -> Z.of_nat n < _bufferSize wrapped5 ->
            exists i, iter_nextIndex wrapped5 n 8 = Some i /\ i <> 8.
Proof.
  assert (H1 : (_packetSize wrapped5 | 8)) by (exists 4; reflexivity).
  assert (H2 : 0 <= 8 < _rawBufferSize wrapped5)
    by (split; [vm_compute; discriminate | reflexivity]).
  exact (conj wrapped5_wf (conj H1 (conj H2
          (nextIndex_cycle (T:=uint16) wrapped5 8 wrapped5_wf H1 H2)))).
Defined.

Lemma read_returns_queued_witness :
  wf (T:=uint16) wrapped5 /\ _readPtr wrapped5 <> _writePtr wrapped5 /\
  resident wrapped5 <= Z.of_nat 4 /\
  read (T:=uint16) 4 wrapped5
  = Returns (queued wrapped5) (set_readPtr (_writePtr wrapped5) wrapped5) /\
  queued (T:=uint16) wrapped5 = map u16 [4; 4; 4; 4].
Proof.
  assert (H1 : _readPtr wrapped5 <> _writePtr wrapped5)
    by (vm_compute; discriminate).
  assert (H2 : resident wrapped5 <= Z.of_nat 4) by (vm_compute; discriminate).
  destruct (read_returns_queued (T:=uint16) wrapped5 wrapped5_wf H1)
    as (_ & _ & Hread & _).
  refine (conj wrapped5_wf (conj H1 (conj H2 (conj (Hread 4%nat H2) _)))).
  vm_compute. reflexivity.
Defined.

Lemma write_stores_copies_of_first_witness :
  wf (T:=uint16) fresh5 /\ canWriteNotThreadSafe fresh5 = Some true /\
  free fresh5 <= Z.of_nat 4 /\
  exists b',
    write 4 true (fresh5, map u16 [1; 2; 3])
    = Returns 0 (b', map u16 [1; 2; 3]) /\
    wf (T:=uint16) b' /\ resident b' = _bufferSize fresh5 - 1 /\
    queued b' = queued fresh5 ++ repeat (u16 1) (Z.to_nat (free fresh5)).
Proof.
  assert (H1 : canWriteNotThreadSafe fresh5 = Some true) by reflexivity.
  assert (H2 : free fresh5 <= Z.of_nat 4) by (vm_compute; discriminate).
  destruct (write_stores_copies_of_first true fresh5 (u16 1) (map u16 [2; 3])
              fresh5_wf H1) as (_ & Hw & _).
  exact (conj fresh5_wf (conj H1 (conj H2 (Hw 4%nat H2)))).
Defined.

Lemma write_read_round_trip_witness :
  wf (T:=uint16) fresh5 /\ canWriteNotThreadSafe fresh5 = Some true /\
  free fresh5 <= Z.of_nat 4 /\ _bufferSize fresh5 - 1 <= Z.of_nat 4 /\
  exists b' b'',
    write 4 true (fresh5, map u16 [1; 2; 3])
    = Returns 0 (b', map u16 [1; 2; 3]) /\
    read 4 b'
    = Returns (queued fresh5 ++ repeat (u16 1) (Z.to_nat (free fresh5))) b'' /\
    wf (T:=uint16) b'' /\ resident b'' = 0 /\ _buffer b'' = _buffer b'.
Proof.
  assert (H1 : canWriteNotThreadSafe fresh5 = Some true) by reflexivity.
  assert (H2 : free fresh5 <= Z.of_nat 4) by (vm_compute; discriminate).
  assert (H3 : _bufferSize fresh5 - 1 <= Z.of_nat 4)
    by (vm_compute; discriminate).
  exact (conj fresh5_wf (conj H1 (conj H2 (conj H3
          (write_read_round_trip true fresh5 (u16 1) (map u16 [2; 3])
             4 4 fresh5_wf H1 H2 H3))))).
Defined.

Lemma never_stuck_witness :
  wf (T:=uint16) wrapped5 /\ _bufferSize wrapped5 - 1 <= Z.of_nat 4 /\
  (canReadNotThreadSafe wrapped5 = true \/
   canWriteNotThreadSafe wrapped5 = Some true) /\
  ((exists values b', read (T:=uint16) 4 wrapped5 = Returns values b') \/
   (exists b', write 4 true (wrapped5, map u16 [1; 2])
               = Returns 0 (b', map u16 [1; 2]))).
Proof.
  assert (H1 : _bufferSize wrapped5 - 1 <= Z.of_nat 4)
    by (vm_compute; discriminate).
  exact (conj wrapped5_wf (conj H1
          (never_stuck true wrapped5 (u16 1) (map u16 [2]) 4
             wrapped5_wf H1))).
Defined.

Lemma new_block_fits_iff_witness :
  CircularBuffer_new (T:=uint16) (2 ^ 63) ample_heap = Constructed zero_block /\
  1 < 2 ^ 63 /\
  Z.of_nat (length (_buffer zero_block)) <= sizeof (T:=uint16) * 2 ^ 63 /\
  (Z.of_nat (length (_buffer zero_block)) = sizeof (T:=uint16) * 2 ^ 63
   <-> sizeof (T:=uint16) * 2 ^ 63 < size_modulus) /\
  (wf (T:=uint16) zero_block <-> sizeof (T:=uint16) * 2 ^ 63 < size_modulus).
Proof.
  exact (conj zero_block_new
          (new_block_fits_iff (T:=uint16) (2 ^ 63) ample_heap zero_block
             zero_block_new)).
Defined.

Lemma reachable_empty_or_full_witness :
  sizeof (T:=uint16) * 5 < size_modulus /\
  reachable (T:=uint16) 5 wrapped5 /\
  ((resident wrapped5 = 0 /\ queued (T:=uint16) wrapped5 = []) \/
   (resident wrapped5 = 5 - 1 /\
    exists p : uint16, queued wrapped5 = repeat p (Z.to_nat (5 - 1)))).
Proof.
  assert (H1 : sizeof (T:=uint16) * 5 < size_modulus) by reflexivity.
  exact (conj H1 (conj wrapped5_reachable
          (reachable_empty_or_full (T:=uint16) 5 wrapped5 H1
             wrapped5_reachable))).
Defined.

Lemma queries_predict_errors_witness :
  (read (T:=uint16) 2 fresh5 = Throws ErrorNothingToRead fresh5 <->
   canReadNotThreadSafe fresh5 = false /\
   ErrorNothingToRead = ErrorNothingToRead /\ fresh5 = fresh5) /\
  (write 2 true (full4, map u16 [1; 2])
   = Throws ErrorBufferBusy (full4, map u16 [1; 2]) <->
   canWriteNotThreadSafe full4 = Some false /\
   ErrorBufferBusy = ErrorBufferBusy /\
   (full4, map u16 [1; 2]) = (full4, map u16 [1; 2])).
Proof.
  split.
  - exact (proj1 (queries_predict_errors (T:=uint16) fresh5)
                 2%nat ErrorNothingToRead fresh5).
  - exact (proj2 (queries_predict_errors (T:=uint16) full4)
                 2%nat true (u16 1) (map u16 [2]) ErrorBufferBusy
                 (full4, map u16 [1; 2])).
Defined.

Lemma capacity_bound_witness :
  sizeof (T:=uint16) * 5 < size_modulus /\
  (reachable (T:=uint16) 5 wrapped5 /\
   wf (T:=uint16) wrapped5 /\ _bufferSize wrapped5 = 5) /\
  (wf (T:=uint16) partial5 /\ _bufferSize partial5 = 5 /\
   resident partial5 < 5 - 1 /\
   free partial5 < Z.of_nat (length (map u16 [1; 2; 3])) /\
   free partial5 <= Z.of_nat 2 /\
   exists n b' packets',
     write 2 true (partial5, map u16 [1; 2; 3]) = Returns n (b', packets') /\
     0 <= n < Z.of_nat (length (map u16 [1; 2; 3])) /\
     wf (T:=uint16) b' /\ _bufferSize b' = 5 /\
     resident b' = 5 - 1 /\
     firstn (length (queued (T:=uint16) partial5)) (queued b')
     = queued partial5 /\
     forall fuel',
       5 - 1 <= Z.of_nat fuel' ->
       exists values b'',
         read fuel' b' = Returns values b'' /\
         Z.of_nat (length values) = 5 - 1 /\
         firstn (length (queued (T:=uint16) partial5)) values
         = queued partial5).
Proof.
  assert (H1 : sizeof (T:=uint16) * 5 < size_modulus) by reflexivity.
  destruct (capacity_bound (T:=uint16) 5 H1) as [Hreach Hwf].
  assert (H2 : _bufferSize partial5 = 5) by reflexivity.
  assert (H3 : resident partial5 < 5 - 1) by reflexivity.
  assert (H4 : free partial5 < Z.of_nat (length (map u16 [1; 2; 3])))
    by reflexivity.
  assert (H5 : free partial5 <= Z.of_nat 2) by (vm_compute; discriminate).
  destruct (Hwf partial5 partial5_wf H2) as (_ & _ & _ & Hwrite).
  exact (conj H1
          (conj (conj wrapped5_reachable (Hreach wrapped5 wrapped5_reachable))
                (conj partial5_wf (conj H2 (conj H3 (conj H4 (conj H5
                   (Hwrite 2%nat true _ H3 H4 H5)))))))).
Defined.
